(** * Ardu Bird: a shallow embedding of the game logic

    The sketch runs on an Arduino UNO (AVR): [int] is a 16-bit two's
    complement integer, [long] has 32 bits and [unsigned long] is a
    32-bit unsigned integer.  Machine integers are modelled by [Z] with the
    wrap-around written out, arrays by lists indexed with stdpp's lookup and
    insert, the global variables by one record, and the three platform
    services the game logic reads (clock, push button, random source) by
    oracles that are consumed call by call. *)

From Stdlib Require Import ZArith Lia Bool Sorted.
From stdpp Require Import base list.

Local Open Scope Z_scope.

(** ** Machine integers *)

(** Value of a 16-bit [int] after a store of the mathematical result [z]. *)
Definition wrap16 (z : Z) : Z := (z + 32768) mod 65536 - 32768.

(** Value of a 32-bit [unsigned long] after a store of [z]. *)
Definition wrapU32 (z : Z) : Z := z mod 4294967296.

Definition int16 (z : Z) : Prop := -32768 <= z <= 32767.

(** ** Constants of the sketch *)

Definition SCREEN_WIDTH : Z := 128.
Definition SCREEN_HEIGHT : Z := 64.
Definition SCALE_FACTOR : Z := 10.
Definition GRAVITY : Z := 5.
Definition JUMP_STRENGTH : Z := -25.
Definition PIPE_WIDTH : Z := 15 * SCALE_FACTOR.
Definition PIPE_GAP : Z := 30 * SCALE_FACTOR.
Definition PIPE_SPEED : Z := 10.
Definition PIPE_SPACING : Z := 65 * SCALE_FACTOR.
Definition MAX_PIPES : nat := 3.
Definition FRAME_TIME : Z := 40.

(** ** Global variables *)

Inductive GameState : Type := STARTSCREEN | HIGHSCORE | PLAYING.

Record Pipe : Type := mkPipe { x : Z; height : Z }.

#[global] Instance Pipe_inhabited : Inhabited Pipe := populate (mkPipe 0 0).

(** [velocity] is declared [float] in the sketch.  It is only ever assigned
    0, [JUMP_STRENGTH], its old value plus [GRAVITY], and the result of
    [constrain] with integer bounds, so it always holds a small integer,
    which a float represents exactly: the model keeps it in [Z]. *)
Record Game : Type := mkGame {
  birdY : Z;
  velocity : Z;
  gameOver : bool;
  score : Z;
  frameCounter : Z;
  gameOverTime : Z;
  gameState : GameState;
  pipes : list Pipe;
  highscores : list Z;
  newHighscoreIndex : Z;
  highscoreTime : Z;
  showBlink : bool;
  lastBlinkTime : Z;
  lastFrameTime : Z
}.

Definition set_birdY (v : Z) (g : Game) : Game :=
  mkGame v (velocity g) (gameOver g) (score g) (frameCounter g) (gameOverTime g)
    (gameState g) (pipes g) (highscores g) (newHighscoreIndex g) (highscoreTime g)
    (showBlink g) (lastBlinkTime g) (lastFrameTime g).
Definition set_velocity (v : Z) (g : Game) : Game :=
  mkGame (birdY g) v (gameOver g) (score g) (frameCounter g) (gameOverTime g)
    (gameState g) (pipes g) (highscores g) (newHighscoreIndex g) (highscoreTime g)
    (showBlink g) (lastBlinkTime g) (lastFrameTime g).
Definition set_gameOver (v : bool) (g : Game) : Game :=
  mkGame (birdY g) (velocity g) v (score g) (frameCounter g) (gameOverTime g)
    (gameState g) (pipes g) (highscores g) (newHighscoreIndex g) (highscoreTime g)
    (showBlink g) (lastBlinkTime g) (lastFrameTime g).
Definition set_score (v : Z) (g : Game) : Game :=
  mkGame (birdY g) (velocity g) (gameOver g) v (frameCounter g) (gameOverTime g)
    (gameState g) (pipes g) (highscores g) (newHighscoreIndex g) (highscoreTime g)
    (showBlink g) (lastBlinkTime g) (lastFrameTime g).
Definition set_frameCounter (v : Z) (g : Game) : Game :=
  mkGame (birdY g) (velocity g) (gameOver g) (score g) v (gameOverTime g)
    (gameState g) (pipes g) (highscores g) (newHighscoreIndex g) (highscoreTime g)
    (showBlink g) (lastBlinkTime g) (lastFrameTime g).
Definition set_gameOverTime (v : Z) (g : Game) : Game :=
  mkGame (birdY g) (velocity g) (gameOver g) (score g) (frameCounter g) v
    (gameState g) (pipes g) (highscores g) (newHighscoreIndex g) (highscoreTime g)
    (showBlink g) (lastBlinkTime g) (lastFrameTime g).
Definition set_gameState (v : GameState) (g : Game) : Game :=
  mkGame (birdY g) (velocity g) (gameOver g) (score g) (frameCounter g) (gameOverTime g)
    v (pipes g) (highscores g) (newHighscoreIndex g) (highscoreTime g)
    (showBlink g) (lastBlinkTime g) (lastFrameTime g).
Definition set_pipes (v : list Pipe) (g : Game) : Game :=
  mkGame (birdY g) (velocity g) (gameOver g) (score g) (frameCounter g) (gameOverTime g)
    (gameState g) v (highscores g) (newHighscoreIndex g) (highscoreTime g)
    (showBlink g) (lastBlinkTime g) (lastFrameTime g).
Definition set_highscores (v : list Z) (g : Game) : Game :=
  mkGame (birdY g) (velocity g) (gameOver g) (score g) (frameCounter g) (gameOverTime g)
    (gameState g) (pipes g) v (newHighscoreIndex g) (highscoreTime g)
    (showBlink g) (lastBlinkTime g) (lastFrameTime g).
Definition set_newHighscoreIndex (v : Z) (g : Game) : Game :=
  mkGame (birdY g) (velocity g) (gameOver g) (score g) (frameCounter g) (gameOverTime g)
    (gameState g) (pipes g) (highscores g) v (highscoreTime g)
    (showBlink g) (lastBlinkTime g) (lastFrameTime g).
Definition set_highscoreTime (v : Z) (g : Game) : Game :=
  mkGame (birdY g) (velocity g) (gameOver g) (score g) (frameCounter g) (gameOverTime g)
    (gameState g) (pipes g) (highscores g) (newHighscoreIndex g) v
    (showBlink g) (lastBlinkTime g) (lastFrameTime g).
Definition set_showBlink (v : bool) (g : Game) : Game :=
  mkGame (birdY g) (velocity g) (gameOver g) (score g) (frameCounter g) (gameOverTime g)
    (gameState g) (pipes g) (highscores g) (newHighscoreIndex g) (highscoreTime g)
    v (lastBlinkTime g) (lastFrameTime g).
Definition set_lastBlinkTime (v : Z) (g : Game) : Game :=
  mkGame (birdY g) (velocity g) (gameOver g) (score g) (frameCounter g) (gameOverTime g)
    (gameState g) (pipes g) (highscores g) (newHighscoreIndex g) (highscoreTime g)
    (showBlink g) v (lastFrameTime g).
Definition set_lastFrameTime (v : Z) (g : Game) : Game :=
  mkGame (birdY g) (velocity g) (gameOver g) (score g) (frameCounter g) (gameOverTime g)
    (gameState g) (pipes g) (highscores g) (newHighscoreIndex g) (highscoreTime g)
    (showBlink g) (lastBlinkTime g) v.

(** The power-on values of the globals ([birdY] has no initialiser and is
    zero-initialised static storage). *)
Definition initialGame : Game :=
  mkGame 0 0 false 0 0 0 STARTSCREEN (replicate MAX_PIPES (mkPipe 0 0))
    [0; 0; 0; 0; 0] (-1) 0 true 0 0.

(** ** The platform *)

(** What the Arduino core hands to the sketch: the [n]-th call of
    [millis()], of [digitalRead(BUTTON_PIN)] and of [random()] since
    power-on returns the [n]-th value of the corresponding source. *)
Record Platform : Type := mkPlatform {
  millis_src : nat -> Z;
  millis_calls : nat;
  button_src : nat -> bool;
  button_calls : nat;
  random_src : nat -> Z;
  random_calls : nat
}.

(** ** State monad over the globals and the platform *)

Definition M (A : Type) : Type := Game -> Platform -> A * Game * Platform.

Definition ret {A : Type} (a : A) : M A := fun g p => (a, g, p).

Definition bind {A B : Type} (m : M A) (k : A -> M B) : M B :=
  fun g p => let '(a, g1, p1) := m g p in k a g1 p1.

Notation "'do' v <- m ; k" := (bind m (fun v => k))
  (at level 10, v name, m at level 100, k at level 200).
Notation "m >> k" := (bind m (fun _ => k))
  (at level 90, right associativity).

Definition get {A : Type} (f : Game -> A) : M A := fun g p => (f g, g, p).
Definition modify (f : Game -> Game) : M unit := fun g p => (tt, f g, p).
Definition when (b : bool) (m : M unit) : M unit := if b then m else ret tt.

(** Globals and platform after running [m]. *)
Definition gameAfter {A : Type} (m : M A) (g : Game) (p : Platform) : Game :=
  snd (fst (m g p)).
Definition platformAfter {A : Type} (m : M A) (g : Game) (p : Platform) : Platform :=
  snd (m g p).
Definition valueOf {A : Type} (m : M A) (g : Game) (p : Platform) : A :=
  fst (fst (m g p)).

(** [for (int i = from; i < from + n; i++) body(i)] *)
Fixpoint for_ (from : nat) (n : nat) (body : nat -> M unit) : M unit :=
  match n with
  | O => ret tt
  | S n' => body from >> for_ (S from) n' body
  end.

(** [millis()]: an [unsigned long]. *)
Definition millis : M Z :=
  fun g p =>
    (wrapU32 (millis_src p (millis_calls p)), g,
     mkPlatform (millis_src p) (S (millis_calls p)) (button_src p) (button_calls p)
       (random_src p) (random_calls p)).

(** [digitalRead(BUTTON_PIN) == LOW]; the button is wired with a pull-up. *)
Definition buttonLow : M bool :=
  fun g p =>
    (button_src p (button_calls p), g,
     mkPlatform (millis_src p) (millis_calls p) (button_src p) (S (button_calls p))
       (random_src p) (random_calls p)).

(** Modelled from the spec: [random(lo, hi)] belongs to the Arduino core,
    not to the repository; the random source returns an integer in
    [lo, hi).  The raw draw comes from the platform; how the draws are
    distributed is not modelled. *)
Definition random (lo hi : Z) : M Z :=
  fun g p =>
    (lo + random_src p (random_calls p) mod (hi - lo), g,
     mkPlatform (millis_src p) (millis_calls p) (button_src p) (button_calls p)
       (random_src p) (S (random_calls p))).

Definition anyKeyPressed : M bool := buttonLow.

(** ** Highscores *)

(** Inner loop of [saveHighscores]:
    [for (int j = 4; j > i; j--) highscores[j] = highscores[j - 1];]
    with [n = j - i] iterations left. *)
Fixpoint shiftDown (n : nat) (j : nat) (hs : list Z) : list Z :=
  match n with
  | O => hs
  | S n' => shiftDown n' (j - 1)%nat (<[j := hs !!! (j - 1)%nat]> hs)
  end.

(** Outer loop of [saveHighscores] from index [i] with [n = 5 - i]
    iterations left; the [break] ends the recursion.  Returns the array and
    [newHighscoreIndex]. *)
Fixpoint scanHighscores (n : nat) (i : nat) (newScore : Z) (hs : list Z) (idx : Z)
  : list Z * Z :=
  match n with
  | O => (hs, idx)
  | S n' =>
      if hs !!! i <? newScore
      then (<[i := newScore]> (shiftDown (4 - i) 4 hs), Z.of_nat i)
      else scanHighscores n' (S i) newScore hs idx
  end.

Definition saveHighscores (newScore : Z) : M unit :=
  modify (set_newHighscoreIndex (-1)) >>
  modify (fun g =>
    let r := scanHighscores 5 0 newScore (highscores g) (newHighscoreIndex g) in
    set_newHighscoreIndex (snd r) (set_highscores (fst r) g)).

(** The list and the index that [saveHighscores] leaves behind. *)
Definition submit (s : Z) (hs : list Z) : list Z * Z :=
  scanHighscores 5 0 s hs (-1).

(** ** Obstacles *)

Definition getPipe (i : nat) : M Pipe := get (fun g => pipes g !!! i).

(** [pipes[i].x = v] *)
Definition setPipeX (i : nat) (v : Z) : M unit :=
  modify (fun g => set_pipes (<[i := mkPipe v (height (pipes g !!! i))]> (pipes g)) g).

(** [pipes[i].height = v] *)
Definition setPipeHeight (i : nat) (v : Z) : M unit :=
  modify (fun g => set_pipes (<[i := mkPipe (x (pipes g !!! i)) v]> (pipes g)) g).

Definition generatePipeHeight : M Z :=
  random (10 * SCALE_FACTOR) (SCREEN_HEIGHT * SCALE_FACTOR - PIPE_GAP - 10 * SCALE_FACTOR).

(** Loop of [findFurthestPipe] from index [i] with [n] iterations left. *)
Fixpoint furthestFrom (n : nat) (i : nat) (ps : list Pipe) (maxX : Z) : Z :=
  match n with
  | O => maxX
  | S n' =>
      furthestFrom n' (S i) ps
        (if x (ps !!! i) >? maxX then x (ps !!! i) else maxX)
  end.

Definition findFurthestPipe : M Z :=
  get (fun g => furthestFrom MAX_PIPES 0 (pipes g) 0).

(** The horizontal jitter [random(-20, 20) * SCALE_FACTOR], a [long]. *)
Definition jitter : M Z :=
  do r <- random (-20) 20; ret (r * SCALE_FACTOR).

Definition resetGame : M unit :=
  modify (set_birdY (Z.quot (SCREEN_HEIGHT * SCALE_FACTOR) 5)) >>
  modify (set_velocity 0) >>
  modify (set_score 0) >>
  modify (set_gameOver false) >>
  setPipeX 0 (SCREEN_WIDTH * SCALE_FACTOR) >>
  (do h <- generatePipeHeight; setPipeHeight 0 h) >>
  for_ 1 (MAX_PIPES - 1) (fun i =>
    (do j <- jitter;
     setPipeX i
       (wrap16 (wrap16 (SCREEN_WIDTH * SCALE_FACTOR + Z.of_nat i * PIPE_SPACING) + j))) >>
    (do h <- generatePipeHeight; setPipeHeight i h)).

(** The three statements of the [if (pipes[i].x < -PIPE_WIDTH)] block of
    [movePipes]: place pipe [i] to the right of the furthest pipe, draw a
    new gap height, count one passed pipe. *)
Definition recyclePipe (i : nat) : M unit :=
  (do f <- findFurthestPipe;
   do j <- jitter;
   setPipeX i (wrap16 (wrap16 (f + PIPE_SPACING) + j))) >>
  (do h <- random (10 * SCALE_FACTOR)
              (SCREEN_HEIGHT * SCALE_FACTOR - PIPE_GAP - 10 * SCALE_FACTOR);
   setPipeHeight i h) >>
  modify (fun g => set_score (wrap16 (score g + 1)) g).

(** Body of the loop of [movePipes] for pipe [i]. *)
Definition movePipe (currentSpeed : Z) (i : nat) : M unit :=
  (do q <- getPipe i; setPipeX i (wrap16 (x q - currentSpeed))) >>
  do q <- getPipe i;
  when (x q <? - PIPE_WIDTH) (recyclePipe i).

Definition movePipes : M unit :=
  do s <- get score;
  let currentSpeed := wrap16 (PIPE_SPEED + s) in
  for_ 0 MAX_PIPES (movePipe currentSpeed).

(** ** Physics of the player *)

(** Modelled from the spec: [constrain] is a macro of the Arduino core, not
    of the repository; it clamps its first argument to the range given by
    the other two, as
    [((amt)<(low)?(low):((amt)>(high)?(high):(amt)))]. *)
Definition constrain (amt low high : Z) : Z :=
  if amt <? low then low else if amt >? high then high else amt.

(** The physics statements of the [PLAYING] case of [loop]: from the button
    read to the clamp of [birdY] at the top of the screen.  [birdY +=
    velocity] is computed in [float] and stored into the [int]. *)
Definition updateBird : M unit :=
  (do pressed <- buttonLow; when pressed (modify (set_velocity JUMP_STRENGTH))) >>
  modify (fun g => set_velocity (velocity g + GRAVITY) g) >>
  modify (fun g => set_velocity (constrain (velocity g) (-50) 50) g) >>
  modify (fun g => set_birdY (wrap16 (birdY g + velocity g)) g) >>
  do y <- get birdY; when (y <? 0) (modify (set_birdY 0)).

(** ** Collision detection *)

(** [pipes[i].x < (15 + 2) * SCALE_FACTOR &&
     pipes[i].x + PIPE_WIDTH > (15 - 2) * SCALE_FACTOR] *)
Definition overlapsBird (q : Pipe) : bool :=
  (x q <? (15 + 2) * SCALE_FACTOR) &&
  (wrap16 (x q + PIPE_WIDTH) >? (15 - 2) * SCALE_FACTOR).

(** [(birdY - 2 * SCALE_FACTOR) < pipes[i].height ||
     (birdY + 2 * SCALE_FACTOR) > pipes[i].height + PIPE_GAP] *)
Definition outsideGap (y : Z) (q : Pipe) : bool :=
  (wrap16 (y - 2 * SCALE_FACTOR) <? height q) ||
  (wrap16 (y + 2 * SCALE_FACTOR) >? wrap16 (height q + PIPE_GAP)).

(** Both tests of [checkCollision] for one pipe. *)
Definition hitsPipe (y : Z) (q : Pipe) : bool :=
  if overlapsBird q then outsideGap y q else false.

(** [birdY >= SCREEN_HEIGHT * SCALE_FACTOR] *)
Definition belowScreen (y : Z) : bool := y >=? SCREEN_HEIGHT * SCALE_FACTOR.

(** The three statements executed at every detected collision. *)
Definition endRun : M unit :=
  modify (set_gameOver true) >>
  (do t <- millis; modify (set_gameOverTime t)) >>
  do s <- get score; saveHighscores s.

(** Body of the loop of [checkCollision] for pipe [i]. *)
Definition checkPipe (i : nat) : M unit :=
  do q <- getPipe i;
  do y <- get birdY;
  when (hitsPipe y q) endRun.

Definition checkCollision : M unit :=
  for_ 0 MAX_PIPES checkPipe >>
  do y <- get birdY;
  when (belowScreen y) endRun.

(** ** Screens *)

(** The drawing routines only talk to the display, which is not modelled. *)
Definition renderStartScreen : M unit := ret tt.
Definition drawGame : M unit := ret tt.

(** Of [renderHighscoreScreen] the model keeps the blink timer, the only
    part that touches globals and the clock. *)
Definition renderHighscoreScreen : M unit :=
  do t <- millis;
  do last <- get lastBlinkTime;
  when (wrapU32 (t - last) >? 100)
    (modify (fun g => set_showBlink (negb (showBlink g)) g) >>
     do t' <- millis; modify (set_lastBlinkTime t')).

(** ** The main loop *)

Definition loop_STARTSCREEN : M unit :=
  renderStartScreen >>
  do pressed <- anyKeyPressed;
  when pressed (resetGame >> modify (set_gameState PLAYING)).

Definition loop_PLAYING : M unit :=
  (do over <- get gameOver;
   if over then
     (do t <- millis;
      do since <- get gameOverTime;
      when (wrapU32 (t - since) >? 3000)
        (modify (set_gameState HIGHSCORE) >>
         do t' <- millis; modify (set_highscoreTime t'))) >>
     (do t <- millis;
      do since <- get gameOverTime;
      if wrapU32 (t - since) >? 1000 then
        do pressed <- anyKeyPressed;
        when pressed (resetGame >> modify (set_gameState PLAYING))
      else ret tt)
   else
     updateBird >> movePipes >> checkCollision) >>
  drawGame.

Definition loop_HIGHSCORE : M unit :=
  renderHighscoreScreen >>
  (do t <- millis;
   do since <- get gameOverTime;
   when (wrapU32 (t - since) >? 8000) (modify (set_gameState STARTSCREEN))) >>
  do pressed <- anyKeyPressed;
  when pressed (resetGame >> modify (set_gameState PLAYING)).

Definition loop : M unit :=
  do currentTime <- millis;
  do last <- get lastFrameTime;
  if wrapU32 (currentTime - last) <? FRAME_TIME then ret tt
  else
    modify (set_lastFrameTime currentTime) >>
    modify (fun g => set_frameCounter (wrapU32 (frameCounter g + 1)) g) >>
    do st <- get gameState;
    match st with
    | STARTSCREEN => loop_STARTSCREEN
    | PLAYING => loop_PLAYING
    | HIGHSCORE => loop_HIGHSCORE
    end.

(** ** Sample states used to exercise the statements *)

Definition quietPlatform : Platform :=
  mkPlatform (fun _ => 0) 0 (fun _ => false) 0 (fun _ => 0) 0.

(** A game with a filled highscore table. *)
Definition rankedGame : Game := set_highscores [50; 40; 30; 20; 10] initialGame.

(** A sequence of runs ending with the given scores. *)
Fixpoint saveAll (scores : list Z) : M unit :=
  match scores with
  | [] => ret tt
  | s :: rest => saveHighscores s >> saveAll rest
  end.

(** A run with score 3 in which the player is about to fall below the
    bottom of the screen while the first pipe moves under it. *)
Definition fallingGame : Game :=
  mkGame 600 45 false 3 0 0 PLAYING
    [mkPipe 173 200; mkPipe 823 150; mkPipe 1473 120]
    [0; 0; 0; 0; 0] (-1) 0 true 0 0.

(** The same run one physics and pipe step later, as [checkCollision]
    finds it. *)
Definition crashGame : Game :=
  mkGame 650 50 false 3 0 0 PLAYING
    [mkPipe 160 200; mkPipe 810 150; mkPipe 1460 120]
    [0; 0; 0; 0; 0] (-1) 0 true 0 0.

(** A clock that shows 1000 ms at every reading. *)
Definition lateClock : Platform :=
  mkPlatform (fun _ => 1000) 0 (fun _ => false) 0 (fun _ => 0) 0.

(** ** The contract's collision test *)

(** The obstacle's horizontal span meets the player's span, the player
    standing at x = 15 px with a forgiveness margin of [m] scaled units. *)
Definition overlapsSpan (m : Z) (q : Pipe) : Prop :=
  x q < 15 * SCALE_FACTOR + m /\ 15 * SCALE_FACTOR - m < x q + PIPE_WIDTH.

(** The player's vertical span lies entirely within the gap of [q]. *)
Definition insideGap (m y : Z) (q : Pipe) : Prop :=
  height q <= y - m /\ y + m <= height q + PIPE_GAP.

Definition collides (m y : Z) (q : Pipe) : Prop :=
  overlapsSpan m q /\ ~ insideGap m y q.

(** The invariant of the highscore table: five non-negative entries,
    non-increasing from top to bottom. *)
Definition rankedTable (hs : list Z) : Prop :=
  length hs = 5%nat /\ Forall (fun v => 0 <= v) hs /\ Sorted Z.ge hs.

(** What a collision check leaves untouched, and what it does to
    [gameOver]. *)
Record collisionFrame (hit : bool) (g g' : Game) : Prop := {
  frame_birdY : birdY g' = birdY g;
  frame_velocity : velocity g' = velocity g;
  frame_score : score g' = score g;
  frame_pipes : pipes g' = pipes g;
  frame_gameState : gameState g' = gameState g;
  frame_gameOver : gameOver g' = gameOver g || hit
}.

(** ** The contract's recycling rule *)

(** The plain maximum of the pipes' horizontal positions. *)
Definition maxPosition (ps : list Pipe) : Z :=
  match ps with
  | [] => 0
  | q :: rest => foldr (fun r m => Z.max (x r) m) (x q) rest
  end.

(** The values the next calls of [random(-20, 20)] and of the gap-height
    draw return on platform [p]. *)
Definition nextJitter (p : Platform) : Z :=
  (-20 + random_src p (random_calls p) mod (20 - -20)) * SCALE_FACTOR.
Definition nextHeight (p : Platform) : Z :=
  10 * SCALE_FACTOR
  + random_src p (S (random_calls p))
      mod (SCREEN_HEIGHT * SCALE_FACTOR - PIPE_GAP - 10 * SCALE_FACTOR - 10 * SCALE_FACTOR).

(** Pipe [q] leaves the screen when advanced by [speed]. *)
Definition passed (speed : Z) (q : Pipe) : bool := x q - speed <? - PIPE_WIDTH.


(** Pipe [q] advanced by [speed]. *)
Definition advanced (speed : Z) (q : Pipe) : Pipe := mkPipe (x q - speed) (height q).



(** A random source whose every raw draw is 39: [random(-20, 20)] returns
    19 and the gap-height draw returns 139. *)
Definition highDraws : Platform :=
  mkPlatform (fun _ => 0) 0 (fun _ => false) 0 (fun _ => 39) 0.

(** A run with score 3 whose first pipe is about to leave the screen. *)
Definition recyclingGame : Game :=
  mkGame 300 0 false 3 0 0 PLAYING
    [mkPipe (-140) 150; mkPipe 510 120; mkPipe 1160 180]
    [0; 0; 0; 0; 0] (-1) 0 true 0 0.

(** The clock reading that the timeout test of the [HIGHSCORE] case sees:
    the first [millis()] after [renderHighscoreScreen]. *)
Definition timeoutClock : M Z := renderHighscoreScreen >> millis.

(** The highscore screen, 5 seconds after the end of a run. *)
Definition highscoreGame : Game :=
  mkGame 650 50 true 3 0 1000 HIGHSCORE
    [mkPipe 160 200; mkPipe 810 150; mkPipe 1460 120]
    [3; 0; 0; 0; 0] 0 4100 true 5900 5960.

(** The button is held down and the clock shows 6000 ms. *)
Definition pressedAt6000 : Platform :=
  mkPlatform (fun _ => 6000) 0 (fun _ => true) 0 (fun _ => 0) 0.

(** Nobody touches the button and the clock shows 9100 ms. *)
Definition idleAt9100 : Platform :=
  mkPlatform (fun _ => 9100) 0 (fun _ => false) 0 (fun _ => 0) 0.

(** ** Invariants of monadic code *)

(** [m] keeps the property [P] of the globals. *)
Definition maintains {A : Type} (P : Game -> Prop) (m : M A) : Prop :=
  forall g p, P g -> P (gameAfter m g p).

(** ** Further parts of the sketch *)

(** The first [n] calls of [loop] that the Arduino core makes. *)
Fixpoint run (n : nat) : M unit :=
  match n with
  | O => ret tt
  | S n' => loop >> run n'
  end.

(** The value that the [k]-th next call of [random(lo, hi)] returns on
    platform [p] ([k = 0] for the next call). *)
Definition drawAt (p : Platform) (k : nat) (lo hi : Z) : Z :=
  lo + random_src p (k + random_calls p)%nat mod (hi - lo).

(** The run of [crashGame] after its collision at 1000 ms. *)
Definition crashedGame : Game :=
  mkGame 650 50 true 3 25 1000 PLAYING
    [mkPipe 160 200; mkPipe 810 150; mkPipe 1460 120]
    [3; 3; 0; 0; 0] 1 0 true 0 1000.

(** A clock that shows [t0] ms at its first reading and one millisecond
    more at every further reading, with the button held ([pressed]) or
    released all the time. *)
Definition tickingFrom (t0 : Z) (pressed : bool) : Platform :=
  mkPlatform (fun k => t0 + Z.of_nat k) 0 (fun _ => pressed) 0 (fun _ => 0) 0.

(** A game whose last frame was drawn 6 ms before the clock wraps around,
    and a clock that has wrapped and shows 5 ms. *)
Definition lateFrameGame : Game :=
  mkGame 300 0 false 3 0 0 PLAYING
    [mkPipe 700 150; mkPipe 1350 120; mkPipe 2000 180]
    [0; 0; 0; 0; 0] (-1) 0 true 0 4294967290.
Definition wrappedClock : Platform :=
  mkPlatform (fun _ => 5) 0 (fun _ => false) 0 (fun _ => 0) 0.

(** ** Invariants of the reachable states *)

(** Shape of the two arrays and of the index into the highscore table. *)
Definition arraysIntact (g : Game) : Prop :=
  length (pipes g) = 3%nat /\
  rankedTable (highscores g) /\
  -1 <= newHighscoreIndex g <= 4.

(** Bounds of the player's motion; [SCREEN_HEIGHT * SCALE_FACTOR] is 640. *)
Definition motionBounded (g : Game) : Prop :=
  -50 <= velocity g <= 50 /\
  0 <= birdY g <= 689 /\
  (gameOver g = false -> birdY g < SCREEN_HEIGHT * SCALE_FACTOR).

Definition reachableShape (g : Game) : Prop := arraysIntact g /\ motionBounded g.

(** ** Spacing of the pipes *)

(** Two pipes at least 260 scaled units apart, the closest that
    [resetGame] can place two neighbours (650 - 200 - 190). *)
Definition apart (q r : Pipe) : Prop := 260 <= Z.abs (x q - x r).

Definition spaced (ps : list Pipe) : Prop :=
  forall i j, i <> j -> (i < length ps)%nat -> (j < length ps)%nat ->
    apart (ps !!! i) (ps !!! j).

(** ** Repeated physics steps *)

(** The physics statements of [n] consecutive frames of play. *)
Definition updateBirdTimes (n : nat) : M unit := for_ 0 n (fun _ => updateBird).

(** The button was pressed once, at the first read since power-on (the
    press that starts a run), and has been released since; one read has
    been taken. *)
Definition afterTap : Platform :=
  mkPlatform (fun _ => 0) 0 (fun k => (k =? 0)%nat) 1 (fun _ => 0) 0.

(** ** Drawing the pipes *)

(** The arguments x, y, width and height of one [display.fillRect] call,
    in pixels. *)
Record Rect : Type := mkRect { rect_x : Z; rect_y : Z; rect_w : Z; rect_h : Z }.

(** Body of the loop of [drawPipes]: the four rectangles of one pipe, in
    the order of the calls.  C's [/] on [int] truncates towards zero. *)
Definition pipeRects (q : Pipe) : list Rect :=
  let pipeX := Z.quot (x q) SCALE_FACTOR in
  let upperPipeHeight := Z.quot (height q) SCALE_FACTOR in
  let gapHeight := Z.quot PIPE_GAP SCALE_FACTOR in
  let lowerPipeY := upperPipeHeight + gapHeight in
  let lowerPipeHeight := SCREEN_HEIGHT - lowerPipeY in
  let pipeWidth := Z.quot PIPE_WIDTH SCALE_FACTOR in
  [ mkRect pipeX 0 pipeWidth (upperPipeHeight - 6);
    mkRect (pipeX - 2) (upperPipeHeight - 6) (pipeWidth + 4) 6;
    mkRect (pipeX - 2) lowerPipeY (pipeWidth + 4) 6;
    mkRect pipeX (lowerPipeY + 6) pipeWidth (lowerPipeHeight - 6) ].

(** Loop of [drawPipes] from index [i] with [n] iterations left. *)
Fixpoint drawPipesFrom (n : nat) (i : nat) (ps : list Pipe) : list Rect :=
  match n with
  | O => []
  | S n' => pipeRects (ps !!! i) ++ drawPipesFrom n' (S i) ps
  end.

(** The rectangles that [drawPipes] fills, in the order of the calls. *)
Definition drawPipes : M (list Rect) :=
  get (fun g => drawPipesFrom MAX_PIPES 0 (pipes g)).

(** ** Gaps on the screen *)

(** The gap of [q] starts where [generatePipeHeight] can put it. *)
Definition gapOnScreen (q : Pipe) : Prop := 100 <= height q < 240.

(** Once a run has been started, every pipe has its gap on the screen. *)
Definition pipesDrawable (g : Game) : Prop :=
  length (pipes g) = 3%nat /\
  (gameState g <> STARTSCREEN -> Forall gapOnScreen (pipes g)).

(** A rectangle with a positive height that lies between the top and the
    bottom of the screen. *)
Definition onScreenRows (r : Rect) : Prop :=
  0 <= rect_y r /\ 0 < rect_h r /\ rect_y r + rect_h r <= SCREEN_HEIGHT.

(** ** The ranking kept by the highscore table *)

(** Insertion of [s] into a list in non-increasing order, below the
    entries that are at least [s]. *)
Fixpoint insertDesc (s : Z) (l : list Z) : list Z :=
  match l with
  | [] => [s]
  | h :: t => if h <? s then s :: h :: t else h :: insertDesc s t
  end.

(** All scores submitted so far, ranked, together with the five zeros of
    power-on. *)
Definition ranking (scores : list Z) : list Z :=
  foldl (fun l s => insertDesc s l) [0; 0; 0; 0; 0] scores.

(** * Properties *)

(** *** Machine integers *)

Lemma wrap16_id (z : Z) : int16 z -> wrap16 z = z.
Proof.
  unfold int16, wrap16. intros Hz.
  rewrite Z.mod_small by lia. lia.
Qed.

Lemma wrap16_int16 (z : Z) : int16 (wrap16 z).
Proof.
  unfold int16, wrap16.
  pose proof (Z.mod_pos_bound (z + 32768) 65536 ltac:(lia)). lia.
Qed.

(** *** Tactics *)

(** Replaces the sketch's constants by their values. *)
Ltac unfold_consts :=
  cbv [SCREEN_WIDTH SCREEN_HEIGHT SCALE_FACTOR GRAVITY JUMP_STRENGTH PIPE_WIDTH
       PIPE_GAP PIPE_SPEED PIPE_SPACING FRAME_TIME] in *.

(** Removes the wrap-around where the value fits an [int]. *)
Ltac no_wrap :=
  repeat match goal with
    | |- context [wrap16 ?z] => rewrite (wrap16_id z) by (unfold int16; lia)
    end.

(** Case analysis on the integer comparisons of the goal. *)
Ltac bool_cases :=
  rewrite ?Z.gtb_ltb, ?Z.geb_leb;
  repeat match goal with
    | |- context [?u <? ?v] => destruct (Z.ltb_spec u v)
    | |- context [?u <=? ?v] => destruct (Z.leb_spec u v)
    end.

(** *** The highscore table *)

Lemma submit_cases (s a b c d e : Z) :
  submit s [a; b; c; d; e] =
    if a <? s then ([s; a; b; c; d], 0)
    else if b <? s then ([a; s; b; c; d], 1)
    else if c <? s then ([a; b; s; c; d], 2)
    else if d <? s then ([a; b; c; s; d], 3)
    else if e <? s then ([a; b; c; d; s], 4)
    else ([a; b; c; d; e], -1).
Proof.
  unfold submit. cbn.
  destruct (a <? s); [reflexivity|].
  destruct (b <? s); [reflexivity|].
  destruct (c <? s); [reflexivity|].
  destruct (d <? s); [reflexivity|].
  destruct (e <? s); reflexivity.
Qed.

(** *** The insertion routine against its contract *)

Lemma length5_inv {A : Type} (l : list A) :
  length l = 5%nat -> exists a b c d e, l = [a; b; c; d; e].
Proof.
  destruct l as [|a [|b [|c [|d [|e [|f l]]]]]]; cbn; intros H; try discriminate.
  now exists a, b, c, d, e.
Qed.

Lemma submit_length (s : Z) (hs : list Z) :
  length hs = 5%nat -> length (fst (submit s hs)) = 5%nat.
Proof.
  intros H. destruct (length5_inv hs H) as (a & b & c & d & e & ->).
  rewrite submit_cases.
  repeat match goal with |- context [if ?t then _ else _] => destruct t end;
    reflexivity.
Qed.

(** When some entry is below [s], [submit] writes [s] into the first such
    slot [i], keeps the slots above it, and moves slots [i..3] to [i+1..4]. *)
Lemma submit_insert (s : Z) (hs : list Z) (i : nat) (v : Z) :
  length hs = 5%nat ->
  hs !! i = Some v -> v < s ->
  (forall j w, (j < i)%nat -> hs !! j = Some w -> s <= w) ->
  submit s hs = (take i hs ++ s :: take (4 - i) (drop i hs), Z.of_nat i).
Proof.
  intros H Hi Hv Hfirst.
  destruct (length5_inv hs H) as (a & b & c & d & e & ->).
  rewrite submit_cases.
  pose proof (Hfirst 0%nat a) as H0. pose proof (Hfirst 1%nat b) as H1.
  pose proof (Hfirst 2%nat c) as H2. pose proof (Hfirst 3%nat d) as H3.
  destruct i as [|[|[|[|[|i]]]]]; cbn in Hi; try discriminate;
    injection Hi as ->; cbn -[Z.ltb];
    repeat match goal with
      | Hj : (?j < ?k)%nat -> _ |- _ =>
          first [ specialize (Hj ltac:(lia) eq_refl) | clear Hj ]
      end;
    bool_cases; first [ reflexivity | lia ].
Qed.

(** When no entry is below [s], nothing is written. *)
Lemma submit_none (s : Z) (hs : list Z) :
  length hs = 5%nat ->
  (forall v, v ∈ hs -> s <= v) ->
  submit s hs = (hs, -1).
Proof.
  intros H Hall.
  destruct (length5_inv hs H) as (a & b & c & d & e & ->).
  rewrite submit_cases.
  pose proof (Hall a ltac:(repeat constructor)). pose proof (Hall b ltac:(repeat constructor)).
  pose proof (Hall c ltac:(repeat constructor)). pose proof (Hall d ltac:(repeat constructor)).
  pose proof (Hall e ltac:(repeat constructor)).
  bool_cases; first [ reflexivity | lia ].
Qed.

(** The first slot below [s], when there is one. *)
Lemma first_below (s : Z) (hs : list Z) :
  (exists v, v ∈ hs /\ v < s) ->
  exists i v, hs !! i = Some v /\ v < s /\
    forall j w, (j < i)%nat -> hs !! j = Some w -> s <= w.
Proof.
  induction hs as [|h t IH]; intros (v & Hin & Hv).
  - now apply elem_of_nil in Hin.
  - destruct (Z.lt_ge_cases h s) as [Hlt|Hge].
    + exists 0%nat, h. repeat split; [assumption|]. intros j w Hj. lia.
    + destruct IH as (i & u & Hi & Hu & Hfirst).
      { apply elem_of_cons in Hin as [->|Hin]; [lia|]. eauto. }
      exists (S i), u. repeat split; [assumption..|].
      intros [|j] w Hj Hw; cbn in Hw.
      * injection Hw as <-. lia.
      * apply (Hfirst j w); [lia|assumption].
Qed.

(** *** Running monadic code *)

Lemma gameAfter_bind {A B : Type} (m : M A) (k : A -> M B) (g : Game) (p : Platform) :
  gameAfter (bind m k) g p =
    gameAfter (k (valueOf m g p)) (gameAfter m g p) (platformAfter m g p).
Proof.
  unfold gameAfter, platformAfter, valueOf, bind.
  destruct (m g p) as [[a g1] p1]. reflexivity.
Qed.

Lemma platformAfter_bind {A B : Type} (m : M A) (k : A -> M B) (g : Game) (p : Platform) :
  platformAfter (bind m k) g p =
    platformAfter (k (valueOf m g p)) (gameAfter m g p) (platformAfter m g p).
Proof.
  unfold gameAfter, platformAfter, valueOf, bind.
  destruct (m g p) as [[a g1] p1]. reflexivity.
Qed.

Lemma valueOf_bind {A B : Type} (m : M A) (k : A -> M B) (g : Game) (p : Platform) :
  valueOf (bind m k) g p =
    valueOf (k (valueOf m g p)) (gameAfter m g p) (platformAfter m g p).
Proof.
  unfold gameAfter, platformAfter, valueOf, bind.
  destruct (m g p) as [[a g1] p1]. reflexivity.
Qed.

Section Maintains.

Context {P : Game -> Prop}.

Lemma maintains_ret {A : Type} (a : A) : maintains P (ret a).
Proof. intros g p H. exact H. Qed.

Lemma maintains_bind {A B : Type} (m : M A) (k : A -> M B) :
  maintains P m -> (forall a, maintains P (k a)) -> maintains P (bind m k).
Proof.
  intros Hm Hk g p H. rewrite gameAfter_bind. apply Hk, Hm, H.
Qed.

Lemma maintains_get {A : Type} (f : Game -> A) : maintains P (get f).
Proof. intros g p H. exact H. Qed.

Lemma maintains_modify (f : Game -> Game) :
  (forall g, P g -> P (f g)) -> maintains P (modify f).
Proof. intros Hf g p H. apply Hf, H. Qed.

Lemma maintains_millis : maintains P millis.
Proof. intros g p H. exact H. Qed.

Lemma maintains_buttonLow : maintains P buttonLow.
Proof. intros g p H. exact H. Qed.

Lemma maintains_random (lo hi : Z) : maintains P (random lo hi).
Proof. intros g p H. exact H. Qed.

Lemma maintains_when (b : bool) (m : M unit) :
  maintains P m -> maintains P (when b m).
Proof. intros Hm. destruct b; [exact Hm|apply maintains_ret]. Qed.

Lemma maintains_if {A : Type} (b : bool) (m1 m2 : M A) :
  maintains P m1 -> maintains P m2 -> maintains P (if b then m1 else m2).
Proof. intros H1 H2. destruct b; assumption. Qed.

Lemma maintains_for (body : nat -> M unit) (n from : nat) :
  (forall i, maintains P (body i)) -> maintains P (for_ from n body).
Proof.
  intros Hbody. revert from. induction n as [|n IH]; intros from; cbn [for_].
  - apply maintains_ret.
  - apply maintains_bind; [apply Hbody|intros _; apply IH].
Qed.
End Maintains.

(** Applies the rules above along the structure of the code; what is left
    are the assignments to globals. *)
Ltac maintain :=
  repeat first
    [ assumption | apply maintains_ret | apply maintains_get | apply maintains_millis
    | apply maintains_buttonLow | apply maintains_random
    | apply maintains_bind; [|intros ?] | apply maintains_when
    | apply maintains_if | apply maintains_for; intros ?
    | apply maintains_modify; intros ? ? ].

Lemma highscores_after_save (s : Z) (g : Game) (p : Platform) :
  highscores (gameAfter (saveHighscores s) g p) = fst (submit s (highscores g)).
Proof. reflexivity. Qed.

Lemma index_after_save (s : Z) (g : Game) (p : Platform) :
  newHighscoreIndex (gameAfter (saveHighscores s) g p) = snd (submit s (highscores g)).
Proof. reflexivity. Qed.

Lemma submit_index_iff (s : Z) (hs : list Z) :
  length hs = 5%nat ->
  (exists v, v ∈ hs /\ v < s) <-> snd (submit s hs) <> -1.
Proof.
  intros H. split.
  - intros Hex. destruct (first_below s hs Hex) as (i & v & Hi & Hv & Hfirst).
    rewrite (submit_insert s hs i v H Hi Hv Hfirst). cbn. lia.
  - intros Hidx.
    destruct (length5_inv hs H) as (a & b & c & d & e & ->).
    rewrite submit_cases in Hidx.
    destruct (Z.ltb_spec a s); [exists a; split; [repeat constructor|lia]|].
    destruct (Z.ltb_spec b s); [exists b; split; [repeat constructor|lia]|].
    destruct (Z.ltb_spec c s); [exists c; split; [repeat constructor|lia]|].
    destruct (Z.ltb_spec d s); [exists d; split; [repeat constructor|lia]|].
    destruct (Z.ltb_spec e s); [exists e; split; [repeat constructor|lia]|].
    now cbn in Hidx.
Qed.

(** *** Order of the highscore table *)

Lemma sorted5 (R : Z -> Z -> Prop) (a b c d e : Z) :
  Sorted R [a; b; c; d; e] <-> R a b /\ R b c /\ R c d /\ R d e.
Proof.
  split.
  - intros H.
    repeat match goal with
      | Hs : Sorted _ (_ :: _) |- _ =>
          let Hd := fresh "Hd" in
          apply Sorted_inv in Hs as [Hs Hd]; apply HdRel_inv in Hd
      end.
    tauto.
  - intros (Hab & Hbc & Hcd & Hde). repeat constructor; assumption.
Qed.

Lemma forall5 (P : Z -> Prop) (a b c d e : Z) :
  Forall P [a; b; c; d; e] <-> P a /\ P b /\ P c /\ P d /\ P e.
Proof.
  split.
  - intros H. repeat (apply Forall_cons in H as [? H]). tauto.
  - intros (? & ? & ? & ? & ?). repeat constructor; assumption.
Qed.

Lemma submit_rankedTable (s : Z) (hs : list Z) :
  rankedTable hs -> rankedTable (fst (submit s hs)).
Proof.
  intros (Hlen & Hpos & Hsort).
  destruct (length5_inv hs Hlen) as (a & b & c & d & e & ->).
  apply forall5 in Hpos. apply sorted5 in Hsort.
  rewrite submit_cases. unfold rankedTable.
  bool_cases; cbn [fst]; rewrite forall5, sorted5;
    (split; [reflexivity|]); lia.
Qed.

Lemma saveAll_rankedTable (scores : list Z) (g : Game) (p : Platform) :
  rankedTable (highscores g) ->
  rankedTable (highscores (gameAfter (saveAll scores) g p)).
Proof.
  revert g p. induction scores as [|s rest IH]; intros g p Hinv.
  - exact Hinv.
  - cbn [saveAll]. rewrite gameAfter_bind. apply IH.
    rewrite highscores_after_save. now apply submit_rankedTable.
Qed.

Lemma initial_rankedTable : rankedTable (highscores initialGame).
Proof.
  unfold rankedTable. cbn. rewrite forall5, sorted5.
  split; [reflexivity|]. lia.
Qed.

(** *** Collision detection *)

Lemma checkPipe_run (i : nat) (g : Game) (p : Platform) :
  gameAfter (checkPipe i) g p =
    if hitsPipe (birdY g) (pipes g !!! i) then gameAfter endRun g p else g.
Proof.
  unfold checkPipe, gameAfter, bind, getPipe, get, when.
  destruct (hitsPipe (birdY g) (pipes g !!! i)); reflexivity.
Qed.

Lemma checkPipe_frame (i : nat) (g : Game) (p : Platform) :
  collisionFrame (hitsPipe (birdY g) (pipes g !!! i)) g (gameAfter (checkPipe i) g p).
Proof.
  rewrite checkPipe_run.
  destruct (hitsPipe (birdY g) (pipes g !!! i)); split; cbn;
    rewrite ?orb_true_r, ?orb_false_r; reflexivity.
Qed.

Lemma checkBottom_frame (g : Game) (p : Platform) :
  collisionFrame (belowScreen (birdY g)) g
    (gameAfter (do y <- get birdY; when (belowScreen y) endRun) g p).
Proof.
  unfold gameAfter, bind, get, when.
  destruct (belowScreen (birdY g)); split; cbn;
    rewrite ?orb_true_r, ?orb_false_r; reflexivity.
Qed.

Lemma collisionFrame_trans (h1 h2 : bool) (g g1 g2 : Game) :
  collisionFrame h1 g g1 -> collisionFrame h2 g1 g2 ->
  collisionFrame (h1 || h2) g g2.
Proof.
  intros [] []. split; try congruence.
  rewrite orb_assoc. congruence.
Qed.

Lemma checkCollision_frame (g : Game) (p : Platform) :
  collisionFrame
    (hitsPipe (birdY g) (pipes g !!! 0%nat)
     || hitsPipe (birdY g) (pipes g !!! 1%nat)
     || hitsPipe (birdY g) (pipes g !!! 2%nat)
     || belowScreen (birdY g))
    g (gameAfter checkCollision g p).
Proof.
  unfold checkCollision, MAX_PIPES. cbn [for_].
  rewrite gameAfter_bind.
  generalize (platformAfter (checkPipe 0 >> checkPipe 1 >> checkPipe 2 >> ret ()) g p).
  intros p3.
  rewrite (gameAfter_bind (checkPipe 0)).
  pose proof (checkPipe_frame 0 g p) as F0.
  set (g0 := gameAfter (checkPipe 0) g p) in *.
  generalize (platformAfter (checkPipe 0) g p). intros p0.
  rewrite (gameAfter_bind (checkPipe 1)).
  pose proof (checkPipe_frame 1 g0 p0) as F1.
  set (g1 := gameAfter (checkPipe 1) g0 p0) in *.
  generalize (platformAfter (checkPipe 1) g0 p0). intros p1.
  rewrite (gameAfter_bind (checkPipe 2)).
  pose proof (checkPipe_frame 2 g1 p1) as F2.
  set (g2 := gameAfter (checkPipe 2) g1 p1) in *.
  generalize (platformAfter (checkPipe 2) g1 p1). intros p2.
  change (gameAfter (ret ()) g2 p2) with g2.
  pose proof (checkBottom_frame g2 p3) as F3.
  rewrite (frame_birdY _ _ _ F0), (frame_pipes _ _ _ F0) in F1.
  pose proof (collisionFrame_trans _ _ _ _ _ F0 F1) as F01.
  rewrite (frame_birdY _ _ _ F01), (frame_pipes _ _ _ F01) in F2.
  pose proof (collisionFrame_trans _ _ _ _ _ F01 F2) as F012.
  rewrite (frame_birdY _ _ _ F012) in F3.
  exact (collisionFrame_trans _ _ _ _ _ F012 F3).
Qed.

Lemma hitsPipe_iff (y : Z) (q : Pipe) :
  -30000 <= x q <= 30000 -> -30000 <= height q <= 30000 -> -30000 <= y <= 30000 ->
  hitsPipe y q = true <-> collides (2 * SCALE_FACTOR) y q.
Proof.
  intros Hx Hh Hy.
  unfold hitsPipe, overlapsBird, outsideGap, collides, overlapsSpan, insideGap.
  unfold_consts. no_wrap. bool_cases; cbn; split; intros; first [lia | discriminate].
Qed.

(** *** Physics *)

Lemma constrain_clamp (v : Z) : constrain v (-50) 50 = Z.max (-50) (Z.min 50 v).
Proof. unfold constrain. bool_cases; lia. Qed.

Lemma updateBird_run (g : Game) (p : Platform) :
  let v' := constrain ((if button_src p (button_calls p) then JUMP_STRENGTH
                        else velocity g) + GRAVITY) (-50) 50 in
  let y' := wrap16 (birdY g + v') in
  gameAfter updateBird g p =
    set_birdY (if y' <? 0 then 0 else y') (set_velocity v' g).
Proof.
  intros v' y'. subst v' y'.
  unfold updateBird, gameAfter, bind, buttonLow, when, modify, get, ret.
  destruct (button_src p (button_calls p));
    cbn [fst snd velocity birdY set_velocity set_birdY];
    match goal with |- context [if ?c then _ else _] => destruct c end;
    reflexivity.
Qed.

(** *** Moving and recycling pipes *)

Lemma gtb_max (a m : Z) : (if a >? m then a else m) = Z.max m a.
Proof. bool_cases; lia. Qed.

Lemma furthest3 (q0 q1 q2 : Pipe) :
  furthestFrom MAX_PIPES 0 [q0; q1; q2] 0 = Z.max 0 (maxPosition [q0; q1; q2]).
Proof.
  unfold MAX_PIPES, furthestFrom, maxPosition.
  cbn [lookup_total list_lookup_total foldr].
  rewrite !gtb_max. lia.
Qed.

Lemma nextJitter_range (p : Platform) :
  exists r, -20 <= r < 20 /\ nextJitter p = r * SCALE_FACTOR.
Proof.
  unfold nextJitter.
  exists (-20 + random_src p (random_calls p) mod (20 - -20)). split; [|reflexivity].
  pose proof (Z.mod_pos_bound (random_src p (random_calls p)) (20 - -20) ltac:(lia)).
  lia.
Qed.

Lemma nextHeight_range (p : Platform) : 100 <= nextHeight p < 240.
Proof.
  unfold nextHeight. unfold_consts.
  pose proof (Z.mod_pos_bound (random_src p (S (random_calls p)))
                (64 * 10 - 30 * 10 - 10 * 10 - 10 * 10) ltac:(lia)).
  lia.
Qed.

Lemma recyclePipe_run (i : nat) (g : Game) (p : Platform) :
  (i < length (pipes g))%nat ->
  gameAfter (recyclePipe i) g p =
    set_score (wrap16 (score g + 1))
      (set_pipes
         (<[i := mkPipe
                   (wrap16 (wrap16 (furthestFrom MAX_PIPES 0 (pipes g) 0 + PIPE_SPACING)
                            + nextJitter p))
                   (nextHeight p)]> (pipes g)) g).
Proof.
  intros Hi.
  unfold recyclePipe, gameAfter, setPipeX, setPipeHeight,
    findFurthestPipe, jitter, random, modify, get, ret, nextJitter, nextHeight, bind.
  cbn [fst snd pipes set_pipes score set_score random_src random_calls].
  rewrite list_lookup_total_insert_eq by exact Hi.
  cbn [x height]. rewrite list_insert_insert_eq. reflexivity.
Qed.

Lemma movePipe_run (speed : Z) (i : nat) (g : Game) (p : Platform) :
  (i < length (pipes g))%nat ->
  let q := pipes g !!! i in
  let moved := set_pipes (<[i := mkPipe (wrap16 (x q - speed)) (height q)]> (pipes g)) g in
  gameAfter (movePipe speed i) g p =
    if wrap16 (x q - speed) <? - PIPE_WIDTH
    then gameAfter (recyclePipe i) moved p
    else moved.
Proof.
  intros Hi q moved. subst q moved.
  unfold movePipe, gameAfter, bind, getPipe, setPipeX, when, modify, get, ret.
  cbn [fst snd pipes set_pipes].
  rewrite list_lookup_total_insert_eq by exact Hi. cbn [x].
  destruct (wrap16 (x (pipes g !!! i) - speed) <? - PIPE_WIDTH); reflexivity.
Qed.

Lemma length3_inv {A : Type} (l : list A) :
  length l = 3%nat -> exists a b c, l = [a; b; c].
Proof.
  destruct l as [|a [|b [|c [|d l]]]]; cbn; intros H; try discriminate.
  now exists a, b, c.
Qed.

(** One iteration of the loop of [movePipes], when no [int] overflows. *)
Lemma movePipe_step (speed : Z) (i : nat) (g : Game) (p : Platform) :
  length (pipes g) = 3%nat -> (i < 3)%nat ->
  let q := pipes g !!! i in
  int16 (x q - speed) ->
  (forall j, (j < 3)%nat -> j <> i -> x (pipes g !!! j) <= 31900) ->
  let g' := gameAfter (movePipe speed i) g p in
  let atRecycle := <[i := advanced speed q]> (pipes g) in
  (passed speed q = false ->
     pipes g' = <[i := advanced speed q]> (pipes g) /\ score g' = score g) /\
  (passed speed q = true ->
     exists r h,
       -20 <= r < 20 /\ 100 <= h < 240 /\
       pipes g' =
         <[i := mkPipe (Z.max 0 (maxPosition atRecycle) + PIPE_SPACING + r * SCALE_FACTOR) h]>
           (pipes g) /\
       score g' = wrap16 (score g + 1)).
Proof.
  intros Hlen Hi q Hmove Hroom g' atRecycle.
  assert (Hg' : gameAfter (movePipe speed i) g p = g') by reflexivity.
  clearbody g'. symmetry in Hg'.
  rewrite movePipe_run in Hg' by lia. cbv zeta in Hg'. fold q in Hg'.
  rewrite (wrap16_id _ Hmove) in Hg'.
  unfold passed. split; intros Hpassed; rewrite Hpassed in Hg'.
  - subst g'. split; reflexivity.
  - rewrite recyclePipe_run in Hg' by (cbn [pipes set_pipes]; rewrite length_insert; lia).
    cbn [pipes set_pipes score set_score] in Hg'.
    rewrite list_insert_insert_eq in Hg'.
    destruct (nextJitter_range p) as (r & Hr & Hj). rewrite Hj in Hg'.
    exists r, (nextHeight p). split; [exact Hr|]. split; [apply nextHeight_range|].
    apply Z.ltb_lt in Hpassed.
    fold (advanced speed q) in Hg'. fold atRecycle in Hg'.
    assert (Hmax : furthestFrom MAX_PIPES 0 atRecycle 0 = Z.max 0 (maxPosition atRecycle)
                   /\ 0 <= Z.max 0 (maxPosition atRecycle) <= 31900).
    { subst atRecycle q.
      destruct (length3_inv _ Hlen) as (q0 & q1 & q2 & Hps). rewrite Hps in *.
      pose proof (Hroom 0%nat) as H0. pose proof (Hroom 1%nat) as H1.
      pose proof (Hroom 2%nat) as H2.
      destruct i as [|[|[|i]]]; try lia;
        cbn [insert list_insert lookup_total list_lookup_total] in *;
        rewrite furthest3; (split; [reflexivity|]);
        repeat match goal with
          | Hj : (_ < _)%nat -> _ <> _ -> _ |- _ =>
              first [ specialize (Hj ltac:(lia) ltac:(lia)) | clear Hj ]
          end;
        unfold maxPosition, advanced in *; cbn [foldr x] in *; unfold_consts; lia. }
    destruct Hmax as [Hf Hbound]. rewrite Hf in Hg'.
    assert (Hw1 : int16 (Z.max 0 (maxPosition atRecycle) + PIPE_SPACING))
      by (unfold int16; unfold_consts; lia).
    assert (Hw2 : int16 (Z.max 0 (maxPosition atRecycle) + PIPE_SPACING + r * SCALE_FACTOR))
      by (unfold int16; unfold_consts; lia).
    rewrite (wrap16_id _ Hw1), (wrap16_id _ Hw2) in Hg'.
    subst g'. split; reflexivity.
Qed.

Lemma maxPosition_ge (ps : list Pipe) (j : nat) :
  length ps = 3%nat -> (j < 3)%nat -> x (ps !!! j) <= maxPosition ps.
Proof.
  intros Hlen Hj. destruct (length3_inv _ Hlen) as (q0 & q1 & q2 & ->).
  destruct j as [|[|[|j]]]; try lia;
    unfold maxPosition; cbn [foldr lookup_total list_lookup_total]; lia.
Qed.


(** Summary of one iteration for chaining: the touched pipe, the score, and
    a bound [B + 840] on the position of a recycled pipe when the other
    pipes are at most at [B]. *)
Lemma movePipe_summary (B speed : Z) (i : nat) (g : Game) (p : Platform) :
  length (pipes g) = 3%nat -> (i < 3)%nat ->
  let q := pipes g !!! i in
  int16 (x q - speed) ->
  0 <= B <= 31900 ->
  (forall j, (j < 3)%nat -> j <> i -> x (pipes g !!! j) <= B) ->
  let g' := gameAfter (movePipe speed i) g p in
  exists q',
    pipes g' = <[i := q']> (pipes g) /\
    score g' = (if passed speed q then wrap16 (score g + 1) else score g) /\
    (if passed speed q
     then PIPE_SPACING - 20 * SCALE_FACTOR <= x q' <= B + 840
     else q' = advanced speed q).
Proof.
  intros Hlen Hi q Hmove HB Hroom g'.
  assert (Hroom' : forall j, (j < 3)%nat -> j <> i -> x (pipes g !!! j) <= 31900).
  { intros j Hj Hne. specialize (Hroom j Hj Hne). lia. }
  destruct (movePipe_step speed i g p Hlen Hi Hmove Hroom') as [Hstay Hrecycle].
  fold q g' in Hstay, Hrecycle.
  destruct (passed speed q) eqn:Hpassed.
  - destruct (Hrecycle eq_refl) as (r & h & Hr & Hh & Hps & Hs).
    eexists. split; [exact Hps|]. split; [exact Hs|]. cbn [x].
    assert (Hmax : maxPosition (<[i:=advanced speed q]> (pipes g)) <= B).
    { apply Z.ltb_lt in Hpassed. subst q.
      destruct (length3_inv _ Hlen) as (q0 & q1 & q2 & Hq). rewrite Hq in *.
      pose proof (Hroom 0%nat) as H0. pose proof (Hroom 1%nat) as H1.
      pose proof (Hroom 2%nat) as H2.
      destruct i as [|[|[|i]]]; try lia;
        cbn [insert list_insert lookup_total list_lookup_total] in *;
        repeat match goal with
          | Hj : (_ < _)%nat -> _ <> _ -> _ |- _ =>
              first [ specialize (Hj ltac:(lia) ltac:(lia)) | clear Hj ]
          end;
        unfold maxPosition, advanced in *; cbn [foldr x] in *; unfold_consts; lia. }
    unfold_consts. lia.
  - destruct (Hstay eq_refl) as [Hps Hs].
    eexists. split; [exact Hps|]. split; [exact Hs|]. reflexivity.
Qed.

Lemma gameAfter_movePipes (g : Game) (p : Platform) :
  gameAfter movePipes g p =
    gameAfter (for_ 0 MAX_PIPES (movePipe (wrap16 (PIPE_SPEED + score g)))) g p.
Proof. reflexivity. Qed.



Lemma recyclingGame_range (j : nat) :
  (j < 3)%nat -> -2000 <= x (pipes recyclingGame !!! j) <= 29000.
Proof. destruct j as [|[|[|j]]]; cbn; lia. Qed.

(** *** The state machine *)

Lemma loop_run (g : Game) (p : Platform) :
  let t := wrapU32 (millis_src p (millis_calls p)) in
  let g1 := set_frameCounter (wrapU32 (frameCounter g + 1)) (set_lastFrameTime t g) in
  let p1 := platformAfter millis g p in
  gameAfter loop g p =
    if wrapU32 (t - lastFrameTime g) <? FRAME_TIME then g
    else match gameState g with
         | STARTSCREEN => gameAfter loop_STARTSCREEN g1 p1
         | PLAYING => gameAfter loop_PLAYING g1 p1
         | HIGHSCORE => gameAfter loop_HIGHSCORE g1 p1
         end.
Proof.
  intros t g1 p1. subst t g1 p1.
  unfold loop, gameAfter at 1, bind, millis at 1, get, modify.
  cbn [fst snd lastFrameTime].
  destruct (wrapU32 (wrapU32 (millis_src p (millis_calls p)) - lastFrameTime g) <? FRAME_TIME);
    [reflexivity|].
  cbn [gameState set_frameCounter set_lastFrameTime].
  destruct (gameState g); reflexivity.
Qed.

Lemma gameState_restart (g : Game) (p : Platform) :
  gameState (gameAfter (resetGame >> modify (set_gameState PLAYING)) g p) = PLAYING.
Proof. rewrite gameAfter_bind. reflexivity. Qed.

Lemma loop_HIGHSCORE_state (g : Game) (p : Platform) :
  let pressed := button_src p (button_calls p) in
  let t := valueOf timeoutClock g p in
  gameState (gameAfter loop_HIGHSCORE g p) =
    if pressed then PLAYING
    else if wrapU32 (t - gameOverTime g) >? 8000 then STARTSCREEN
    else gameState g.
Proof.
  intros pressed t. subst pressed t.
  unfold loop_HIGHSCORE, timeoutClock.
  rewrite gameAfter_bind, valueOf_bind. cbv beta.
  assert (Hg : gameOverTime (gameAfter renderHighscoreScreen g p) = gameOverTime g
               /\ gameState (gameAfter renderHighscoreScreen g p) = gameState g).
  { unfold renderHighscoreScreen, gameAfter, bind, millis, get, when, modify.
    cbn [fst snd].
    match goal with |- context [if ?c then _ else _] => destruct c end;
      split; reflexivity. }
  assert (Hp : button_src (platformAfter renderHighscoreScreen g p) = button_src p
               /\ button_calls (platformAfter renderHighscoreScreen g p) = button_calls p).
  { unfold renderHighscoreScreen, platformAfter, bind, millis, get, when, modify.
    cbn [fst snd].
    match goal with |- context [if ?c then _ else _] => destruct c end;
      split; reflexivity. }
  destruct Hg as [Hg1 Hg2]. destruct Hp as [Hp1 Hp2].
  revert Hg1 Hg2 Hp1 Hp2.
  generalize (gameAfter renderHighscoreScreen g p).
  generalize (platformAfter renderHighscoreScreen g p).
  intros p1 g1 Hg1 Hg2 Hp1 Hp2.
  rewrite gameAfter_bind.
  unfold valueOf at 1, millis at 3. cbn [fst].
  set (t := wrapU32 (millis_src p1 (millis_calls p1))).
  assert (Hstate :
    gameState (gameAfter
      (do t <- millis; do since <- get gameOverTime;
       when (wrapU32 (t - since) >? 8000) (modify (set_gameState STARTSCREEN))) g1 p1)
    = if wrapU32 (t - gameOverTime g) >? 8000 then STARTSCREEN else gameState g).
  { unfold gameAfter, bind, millis, get, when, modify. cbn [fst snd].
    fold t. rewrite Hg1.
    destruct (wrapU32 (t - gameOverTime g) >? 8000); cbn; [reflexivity|exact Hg2]. }
  assert (Hbutton :
    button_src (platformAfter
      (do t <- millis; do since <- get gameOverTime;
       when (wrapU32 (t - since) >? 8000) (modify (set_gameState STARTSCREEN))) g1 p1)
      (button_calls (platformAfter
      (do t <- millis; do since <- get gameOverTime;
       when (wrapU32 (t - since) >? 8000) (modify (set_gameState STARTSCREEN))) g1 p1))
    = button_src p (button_calls p)).
  { unfold platformAfter, bind, millis, get, when, modify. cbn [fst snd].
    match goal with |- context [if ?c then _ else _] => destruct c end;
      cbn; rewrite Hp1, Hp2; reflexivity. }
  revert Hstate Hbutton.
  generalize (gameAfter
      (do t <- millis; do since <- get gameOverTime;
       when (wrapU32 (t - since) >? 8000) (modify (set_gameState STARTSCREEN))) g1 p1).
  generalize (platformAfter
      (do t <- millis; do since <- get gameOverTime;
       when (wrapU32 (t - since) >? 8000) (modify (set_gameState STARTSCREEN))) g1 p1).
  intros p2 g2 Hstate Hbutton.
  rewrite gameAfter_bind. unfold anyKeyPressed.
  change (valueOf buttonLow g2 p2) with (button_src p2 (button_calls p2)).
  rewrite Hbutton.
  destruct (button_src p (button_calls p)); cbn [when].
  - apply gameState_restart.
  - exact Hstate.
Qed.

(** The [HIGHSCORE] case of [loop] in terms of the clock readings it
    takes: one for the blink timer, one more when the blink flips, then the
    one of the timeout test. *)
Lemma loop_HIGHSCORE_run (g : Game) (p : Platform) :
  let clk k := wrapU32 (millis_src p k) in
  let n := millis_calls p in
  let blink := wrapU32 (clk n - lastBlinkTime g) >? 100 in
  let gB := if blink
            then set_lastBlinkTime (clk (S n)) (set_showBlink (negb (showBlink g)) g)
            else g in
  let n1 := if blink then S (S n) else S n in
  let late := wrapU32 (clk n1 - gameOverTime g) >? 8000 in
  let gT := if late then set_gameState STARTSCREEN gB else gB in
  let p' := mkPlatform (millis_src p) (S n1) (button_src p) (S (button_calls p))
              (random_src p) (random_calls p) in
  gameAfter loop_HIGHSCORE g p =
    if button_src p (button_calls p)
    then set_gameState PLAYING (gameAfter resetGame gT p')
    else gT.
Proof.
  intros clk n blink gB n1 late gT p'. subst clk n blink gB n1 late gT p'. cbv beta.
  unfold loop_HIGHSCORE, renderHighscoreScreen, anyKeyPressed.
  unfold gameAfter at 1, bind at 1 2 3 4 5 6 7, millis, get, when, modify, buttonLow.
  cbn [fst snd lastBlinkTime millis_src millis_calls button_src button_calls].
  destruct (wrapU32 (wrapU32 (millis_src p (millis_calls p)) - lastBlinkTime g) >? 100);
    unfold bind, ret;
    cbn [fst snd gameOverTime set_showBlink set_lastBlinkTime
         millis_src millis_calls button_src button_calls];
    match goal with |- context [if ?c >? 8000 then _ else _] => destruct (c >? 8000) end;
    cbn [fst snd button_src button_calls];
    destruct (button_src p (button_calls p)); try reflexivity;
    unfold gameAfter;
    match goal with |- context [resetGame ?a ?b] => destruct (resetGame a b) as [[u g2] p2] end;
    reflexivity.
Qed.

(** *** Invariants of a whole frame *)

Lemma birdY_nonneg_loop : maintains (fun g => 0 <= birdY g) loop.
Proof.
  assert (Hbird : maintains (fun g => 0 <= birdY g) updateBird).
  { intros g p _. rewrite updateBird_run. cbv zeta. cbn [birdY set_birdY].
    bool_cases; lia. }
  unfold loop.
  maintain;
    try match goal with |- maintains _ (match ?st with _ => _ end) =>
          destruct st end;
    maintain.
  all: cbn [birdY set_birdY]; vm_compute; discriminate.
Qed.



(** Submitting the same qualifying score a second time changes the table
    again: the copy lands one slot lower, or falls off the end. *)
Lemma submit_twice_differs (s : Z) (hs : list Z) :
  rankedTable hs ->
  (exists v, v ∈ hs /\ v < s) ->
  snd (submit s (fst (submit s hs))) <> snd (submit s hs).
Proof.
  intros (Hlen & _ & Hsort) (v & Hin & Hv).
  destruct (length5_inv hs Hlen) as (a & b & c & d & e & ->).
  apply sorted5 in Hsort.
  rewrite !elem_of_cons, elem_of_nil in Hin.
  rewrite (submit_cases s a b c d e).
  bool_cases; cbn [fst snd]; rewrite submit_cases; bool_cases; cbn [fst snd]; lia.
Qed.


(** * Further properties of the code *)

(** *** A new run *)

Lemma drawAt_range (p : Platform) (k : nat) (lo hi : Z) :
  lo < hi -> lo <= drawAt p k lo hi < hi.
Proof.
  intros H. unfold drawAt.
  pose proof (Z.mod_pos_bound (random_src p (k + random_calls p)%nat) (hi - lo) ltac:(lia)).
  lia.
Qed.

(** The globals after [resetGame]: the five draws are, in order, the gap
    of pipe 0, then jitter and gap of pipe 1, then jitter and gap of
    pipe 2. *)
Lemma resetGame_run (g : Game) (p : Platform) :
  length (pipes g) = 3%nat ->
  gameAfter resetGame g p =
    set_pipes
      [ mkPipe 1280 (drawAt p 0 100 240);
        mkPipe (1930 + drawAt p 1 (-20) 20 * 10) (drawAt p 2 100 240);
        mkPipe (2580 + drawAt p 3 (-20) 20 * 10) (drawAt p 4 100 240) ]
      (set_gameOver false (set_score 0 (set_velocity 0 (set_birdY 128 g)))).
Proof.
  intros Hlen. destruct (length3_inv _ Hlen) as (q0 & q1 & q2 & Hps).
  pose proof (drawAt_range p 1 (-20) 20 ltac:(lia)) as J1.
  pose proof (drawAt_range p 3 (-20) 20 ltac:(lia)) as J2.
  unfold resetGame, MAX_PIPES, generatePipeHeight, jitter, setPipeX, setPipeHeight, random,
    gameAfter, modify, get, ret. cbn [for_ Nat.sub]. unfold bind.
  cbn [fst snd pipes set_pipes set_birdY set_velocity set_score set_gameOver
       random_src random_calls].
  rewrite Hps. cbn [insert list_insert lookup_total list_lookup_total x height].
  unfold drawAt in *. cbn [Nat.add] in *.
  change (Z.of_nat 1) with 1. change (Z.of_nat 2) with 2. unfold_consts.
  change (wrap16 (128 * 10 + 1 * (65 * 10))) with 1930.
  change (wrap16 (128 * 10 + 2 * (65 * 10))) with 2580.
  rewrite !wrap16_id by (unfold int16; lia).
  reflexivity.
Qed.

(** X1: [resetGame] starts a run from scratch, whatever the state before:
    the player at 128 with no velocity, score 0, not over, the first pipe
    at the right screen edge 1280, the second 450 to 840 further right,
    the third another 260 to 1040, every gap starting between 100 and 239,
    and no pipe in the player's column.  The highscore table, its index,
    the game state and the game-over timestamp are not touched. *)
Theorem resetGame_fresh_run (g : Game) (p : Platform) :
  length (pipes g) = 3%nat ->
  let g' := gameAfter resetGame g p in
  birdY g' = 128 /\ velocity g' = 0 /\ score g' = 0 /\ gameOver g' = false /\
  (exists a b c,
     pipes g' = [a; b; c] /\
     x a = SCREEN_WIDTH * SCALE_FACTOR /\
     450 <= x b - x a <= 840 /\
     260 <= x c - x b <= 1040 /\
     Forall (fun q => 100 <= height q < 240 /\ overlapsBird q = false) [a; b; c]) /\
  highscores g' = highscores g /\
  newHighscoreIndex g' = newHighscoreIndex g /\
  gameState g' = gameState g /\
  gameOverTime g' = gameOverTime g.
Proof.
  intros Hlen g'. subst g'. rewrite (resetGame_run g p Hlen).
  cbn [birdY velocity score gameOver pipes highscores newHighscoreIndex gameState
       gameOverTime set_pipes set_gameOver set_score set_velocity set_birdY].
  repeat (split; [reflexivity|]).
  split; [|repeat split; reflexivity].
  pose proof (drawAt_range p 1 (-20) 20 ltac:(lia)) as J1.
  pose proof (drawAt_range p 3 (-20) 20 ltac:(lia)) as J2.
  pose proof (drawAt_range p 0 100 240 ltac:(lia)) as H0.
  pose proof (drawAt_range p 2 100 240 ltac:(lia)) as H1.
  pose proof (drawAt_range p 4 100 240 ltac:(lia)) as H2.
  eexists _, _, _. split; [reflexivity|]. cbn [x height].
  split; [reflexivity|]. split; [lia|]. split; [lia|].
  repeat constructor; cbn [height]; try lia;
    unfold overlapsBird; cbn [x]; unfold_consts;
    apply andb_false_intro1, Z.ltb_ge; lia.
Qed.

Lemma resetGame_fresh_run_witness :
  length (pipes crashGame) = 3%nat /\
  birdY (gameAfter resetGame crashGame highDraws) = 128 /\
  score (gameAfter resetGame crashGame highDraws) = 0.
Proof.
  split; [reflexivity|].
  pose proof (resetGame_fresh_run crashGame highDraws eq_refl) as H.
  cbv zeta in H. split; [apply H|apply H].
Defined.

(** *** The start screen and the end of a run *)

Lemma restart_run (g : Game) (p : Platform) :
  gameAfter (resetGame >> modify (set_gameState PLAYING)) g p =
    set_gameState PLAYING (gameAfter resetGame g p).
Proof. rewrite gameAfter_bind. reflexivity. Qed.

Lemma loop_STARTSCREEN_run (g : Game) (p : Platform) :
  gameAfter loop_STARTSCREEN g p =
    if button_src p (button_calls p)
    then set_gameState PLAYING (gameAfter resetGame g (platformAfter buttonLow g p))
    else g.
Proof.
  unfold loop_STARTSCREEN, renderStartScreen, anyKeyPressed.
  rewrite gameAfter_bind. change (gameAfter (ret ()) g p) with g.
  change (platformAfter (ret ()) g p) with p. cbv beta.
  rewrite gameAfter_bind.
  change (valueOf buttonLow g p) with (button_src p (button_calls p)).
  change (gameAfter buttonLow g p) with g.
  destruct (button_src p (button_calls p)); cbn [when]; [apply restart_run|reflexivity].
Qed.

(** X2: a frame on the start screen.  Without a press nothing changes but
    the frame bookkeeping; with a press the frame ends in [PLAYING] with a
    run started from scratch. *)
Theorem startscreen_frame (g : Game) (p : Platform) :
  gameState g = STARTSCREEN ->
  length (pipes g) = 3%nat ->
  let now := wrapU32 (millis_src p (millis_calls p)) in
  FRAME_TIME <= wrapU32 (now - lastFrameTime g) ->
  let g' := gameAfter loop g p in
  (button_src p (button_calls p) = false ->
     g' = set_frameCounter (wrapU32 (frameCounter g + 1)) (set_lastFrameTime now g)) /\
  (button_src p (button_calls p) = true ->
     gameState g' = PLAYING /\ gameOver g' = false /\ score g' = 0 /\
     birdY g' = 128 /\ velocity g' = 0 /\
     x (pipes g' !!! 0%nat) = SCREEN_WIDTH * SCALE_FACTOR /\
     highscores g' = highscores g).
Proof.
  intros Hstate Hlen now Hdue g'. subst g'.
  rewrite loop_run. cbv zeta. fold now.
  apply Z.ltb_ge in Hdue. rewrite Hdue, Hstate.
  rewrite loop_STARTSCREEN_run.
  change (button_src (platformAfter millis g p) (button_calls (platformAfter millis g p)))
    with (button_src p (button_calls p)).
  split; intros Hb; rewrite Hb; [reflexivity|].
  rewrite resetGame_run by exact Hlen.
  repeat split; reflexivity.
Qed.

Lemma startscreen_frame_witness :
  gameState initialGame = STARTSCREEN /\
  gameState (gameAfter loop initialGame pressedAt6000) = PLAYING /\
  birdY (gameAfter loop initialGame pressedAt6000) = 128.
Proof.
  split; [reflexivity|].
  assert (Hdue : FRAME_TIME <=
            wrapU32 (wrapU32 (millis_src pressedAt6000 (millis_calls pressedAt6000))
                     - lastFrameTime initialGame))
    by (vm_compute; discriminate).
  pose proof (proj2 (startscreen_frame initialGame pressedAt6000 eq_refl eq_refl Hdue)
                eq_refl) as H.
  split; apply H.
Defined.

(** The [PLAYING] case of [loop] once the run is over, in terms of the
    clock readings it takes. *)
Lemma loop_PLAYING_over_run (g : Game) (p : Platform) :
  gameOver g = true ->
  let clk k := wrapU32 (millis_src p k) in
  let n := millis_calls p in
  let c1 := wrapU32 (clk n - gameOverTime g) >? 3000 in
  let gA := if c1 then set_highscoreTime (clk (S n)) (set_gameState HIGHSCORE g) else g in
  let n2 := if c1 then S (S n) else S n in
  let c2 := wrapU32 (clk n2 - gameOverTime g) >? 1000 in
  let p' := mkPlatform (millis_src p) (S n2) (button_src p) (S (button_calls p))
              (random_src p) (random_calls p) in
  gameAfter loop_PLAYING g p =
    if c2 && button_src p (button_calls p)
    then set_gameState PLAYING (gameAfter resetGame gA p')
    else gA.
Proof.
  intros Hover clk n c1 gA n2 c2 p'. subst clk n c1 gA n2 c2 p'. cbv beta.
  unfold loop_PLAYING, drawGame, anyKeyPressed.
  rewrite gameAfter_bind. cbv beta.
  change (gameAfter (ret ()) ?a ?b) with a.
  rewrite gameAfter_bind. cbv beta.
  change (valueOf (get gameOver) g p) with (gameOver g).
  change (gameAfter (get gameOver) g p) with g.
  change (platformAfter (get gameOver) g p) with p.
  rewrite Hover.
  unfold gameAfter at 1, bind at 1 2 3 4 5, millis, get, when, modify, buttonLow.
  cbn [fst snd gameOverTime millis_src millis_calls button_src button_calls].
  destruct (wrapU32 (wrapU32 (millis_src p (millis_calls p)) - gameOverTime g) >? 3000);
    unfold bind, ret;
    cbn [fst snd gameOverTime set_gameState set_highscoreTime
         millis_src millis_calls button_src button_calls];
    match goal with |- context [if ?c >? 1000 then _ else _] => destruct (c >? 1000) end;
    cbn [fst snd andb button_src button_calls]; try reflexivity;
    destruct (button_src p (button_calls p)); try reflexivity;
    unfold gameAfter;
    match goal with |- context [resetGame ?a ?b] => destruct (resetGame a b) as [[u g2] p2] end;
    reflexivity.
Qed.

(** X3: a frame after the end of a run, in terms of the clock readings
    that the frame itself takes.  The reading after the frame gate decides
    the 3000 ms test; when that test fires one more reading is stored in
    [highscoreTime]; the reading after that decides the 1000 ms test.
    With the first reading at most 3000 ms and the second at most 1000 ms
    after [gameOverTime] the frame changes nothing, pressed button or not.
    With the first reading at most 3000 ms after it the frame changes
    nothing without a press.  With the first reading more than 3000 ms
    after it the state becomes [HIGHSCORE] and [highscoreTime] is taken
    from the clock, unless a press starts a new run.  With the reading of
    the 1000 ms test more than 1000 ms after [gameOverTime] a press starts
    a new run at once, also when the 3000 ms have passed: the state is
    [PLAYING], never [HIGHSCORE], and the highscore table and its index
    stay as the ended run left them. *)
Theorem gameover_frame (g : Game) (p : Platform) :
  gameState g = PLAYING ->
  gameOver g = true ->
  length (pipes g) = 3%nat ->
  let n := millis_calls p in
  let now := wrapU32 (millis_src p n) in
  FRAME_TIME <= wrapU32 (now - lastFrameTime g) ->
  let elapsed k := wrapU32 (wrapU32 (millis_src p k) - gameOverTime g) in
  let pressed := button_src p (button_calls p) in
  let g1 := set_frameCounter (wrapU32 (frameCounter g + 1)) (set_lastFrameTime now g) in
  let shown := set_highscoreTime (wrapU32 (millis_src p (S (S n))))
                 (set_gameState HIGHSCORE g1) in
  let g' := gameAfter loop g p in
  let restarted :=
    gameState g' = PLAYING /\ gameOver g' = false /\ score g' = 0 /\
    birdY g' = 128 /\ velocity g' = 0 /\
    highscores g' = highscores g /\ newHighscoreIndex g' = newHighscoreIndex g in
  (elapsed (S n) <= 3000 -> elapsed (S (S n)) <= 1000 -> g' = g1) /\
  (elapsed (S n) <= 3000 -> pressed = false -> g' = g1) /\
  (3000 < elapsed (S n) -> pressed = false -> g' = shown) /\
  (3000 < elapsed (S n) -> elapsed (S (S (S n))) <= 1000 -> g' = shown) /\
  (elapsed (S n) <= 3000 -> 1000 < elapsed (S (S n)) -> pressed = true -> restarted) /\
  (3000 < elapsed (S n) -> 1000 < elapsed (S (S (S n))) -> pressed = true -> restarted).
Proof.
  intros Hstate Hover Hlen n now Hdue elapsed pressed g1 shown g' restarted.
  subst g' restarted shown.
  rewrite loop_run. cbv zeta. fold n. fold now. fold g1.
  apply Z.ltb_ge in Hdue. rewrite Hdue, Hstate.
  rewrite loop_PLAYING_over_run by exact Hover. cbv zeta.
  unfold platformAfter, millis.
  cbn [snd millis_src millis_calls button_src button_calls random_src random_calls].
  change (gameOverTime g1) with (gameOverTime g).
  fold n. fold (elapsed (S n)). fold pressed.
  rewrite !Z.gtb_ltb.
  destruct (Z.ltb_spec 3000 (elapsed (S n))) as [C1|C1].
  - fold (elapsed (S (S (S n)))).
    destruct (Z.ltb_spec 1000 (elapsed (S (S (S n))))) as [C2|C2].
    + split; [intros; lia|]. split; [intros; lia|].
      split; [intros _ Hb; rewrite Hb; reflexivity|].
      split; [intros; lia|]. split; [intros; lia|].
      intros _ _ Hb. rewrite Hb. cbn [andb].
      rewrite resetGame_run by exact Hlen. repeat split; reflexivity.
    + split; [intros; lia|]. split; [intros; lia|].
      split; [intros; reflexivity|]. split; [intros; reflexivity|].
      split; intros; lia.
  - fold (elapsed (S (S n))).
    destruct (Z.ltb_spec 1000 (elapsed (S (S n)))) as [C2|C2].
    + split; [intros; lia|].
      split; [intros _ Hb; rewrite Hb; reflexivity|].
      split; [intros; lia|]. split; [intros; lia|].
      split; [|intros; lia].
      intros _ _ Hb. rewrite Hb. cbn [andb].
      rewrite resetGame_run by exact Hlen. repeat split; reflexivity.
    + split; [intros; reflexivity|]. split; [intros; reflexivity|].
      split; [intros; lia|]. split; [intros; lia|].
      split; intros; lia.
Qed.

Lemma gameover_frame_witness :
  gameState crashedGame = PLAYING /\ gameOver crashedGame = true /\
  gameState (gameAfter loop crashedGame (tickingFrom 4100 false)) = HIGHSCORE /\
  highscoreTime (gameAfter loop crashedGame (tickingFrom 4100 false)) = 4102 /\
  gameState (gameAfter loop crashedGame (tickingFrom 2500 true)) = PLAYING.
Proof.
  split; [reflexivity|]. split; [reflexivity|].
  assert (Hdue1 : FRAME_TIME <=
            wrapU32 (wrapU32 (millis_src (tickingFrom 4100 false)
                                (millis_calls (tickingFrom 4100 false)))
                     - lastFrameTime crashedGame)) by (vm_compute; discriminate).
  assert (Hdue2 : FRAME_TIME <=
            wrapU32 (wrapU32 (millis_src (tickingFrom 2500 true)
                                (millis_calls (tickingFrom 2500 true)))
                     - lastFrameTime crashedGame)) by (vm_compute; discriminate).
  split; [|split].
  - rewrite (proj1 (proj2 (proj2
      (gameover_frame crashedGame (tickingFrom 4100 false) eq_refl eq_refl eq_refl Hdue1))));
      [reflexivity | vm_compute; reflexivity | reflexivity].
  - rewrite (proj1 (proj2 (proj2
      (gameover_frame crashedGame (tickingFrom 4100 false) eq_refl eq_refl eq_refl Hdue1))));
      [reflexivity | vm_compute; reflexivity | reflexivity].
  - apply (proj1 (proj2 (proj2 (proj2 (proj2
      (gameover_frame crashedGame (tickingFrom 2500 true) eq_refl eq_refl eq_refl Hdue2))))));
      [vm_compute; discriminate | vm_compute; reflexivity | reflexivity].
Defined.

(** *** Frame pacing *)

(** The unsigned difference of two clock readings is the time between
    them, also when the clock has wrapped around in between. *)
Lemma elapsed_across_wrap (last d : Z) :
  0 <= d < 4294967296 -> wrapU32 (wrapU32 (last + d) - last) = d.
Proof.
  intros Hd. unfold wrapU32.
  rewrite Zminus_mod_idemp_l.
  replace (last + d - last) with d by lia.
  apply Z.mod_small. lia.
Qed.

Lemma loop_cases_keep_bookkeeping (t c : Z) :
  let P := fun g => lastFrameTime g = t /\ frameCounter g = c in
  maintains P loop_STARTSCREEN /\ maintains P loop_PLAYING /\ maintains P loop_HIGHSCORE.
Proof.
  intros P.
  split; [|split];
    unfold loop_STARTSCREEN, loop_PLAYING, loop_HIGHSCORE; maintain.
Qed.

Lemma loop_skipped (g : Game) (p : Platform) :
  wrapU32 (wrapU32 (millis_src p (millis_calls p)) - lastFrameTime g) < FRAME_TIME ->
  loop g p = (tt, g, platformAfter millis g p).
Proof.
  intros H. apply Z.ltb_lt in H.
  unfold loop, bind, millis, get, platformAfter. cbn [fst snd]. rewrite H. reflexivity.
Qed.

(** X4: frame pacing.  [loop] compares the clock with [lastFrameTime] in
    unsigned arithmetic, so it sees the time [d] that has really passed,
    also across the wrap-around of [millis()].  With [d] below 40 ms the
    call changes no global and reads neither the button nor the random
    source; from 40 ms on it runs a frame, stores the clock reading in
    [lastFrameTime] and counts the frame, whatever the game state. *)
Theorem frame_pacing (g : Game) (p : Platform) (d : Z) :
  0 <= d < 4294967296 ->
  wrapU32 (millis_src p (millis_calls p)) = wrapU32 (lastFrameTime g + d) ->
  let g' := gameAfter loop g p in
  let p' := platformAfter loop g p in
  (d < FRAME_TIME ->
     g' = g /\ button_calls p' = button_calls p /\ random_calls p' = random_calls p /\
     millis_calls p' = S (millis_calls p)) /\
  (FRAME_TIME <= d ->
     lastFrameTime g' = wrapU32 (lastFrameTime g + d) /\
     frameCounter g' = wrapU32 (frameCounter g + 1)).
Proof.
  intros Hd Hclock g' p'. subst g' p'.
  assert (He : wrapU32 (wrapU32 (millis_src p (millis_calls p)) - lastFrameTime g) = d)
    by (rewrite Hclock; now apply elapsed_across_wrap).
  split; intros Hcmp.
  - unfold gameAfter, platformAfter at 1 2 3.
    rewrite loop_skipped by (rewrite He; exact Hcmp).
    repeat split; reflexivity.
  - rewrite loop_run. cbv zeta. rewrite He.
    apply Z.ltb_ge in Hcmp. rewrite Hcmp. rewrite Hclock.
    destruct (loop_cases_keep_bookkeeping
                (wrapU32 (lastFrameTime g + d)) (wrapU32 (frameCounter g + 1)))
      as (Hs & Hp & Hh).
    destruct (gameState g); [apply Hs|apply Hh|apply Hp]; split; reflexivity.
Qed.

Lemma frame_pacing_witness :
  (0 <= 11 < 4294967296) /\
  wrapU32 (millis_src wrappedClock (millis_calls wrappedClock))
    = wrapU32 (lastFrameTime lateFrameGame + 11) /\
  gameAfter loop lateFrameGame wrappedClock = lateFrameGame.
Proof.
  assert (Hd : 0 <= 11 < 4294967296) by lia.
  assert (Hc : wrapU32 (millis_src wrappedClock (millis_calls wrappedClock))
               = wrapU32 (lastFrameTime lateFrameGame + 11)) by reflexivity.
  split; [exact Hd|]. split; [exact Hc|].
  apply (proj1 (frame_pacing lateFrameGame wrappedClock 11 Hd Hc)).
  vm_compute. reflexivity.
Defined.

(** *** What every reachable state satisfies *)

(** As [maintain], but uses the facts at hand about whole functions before
    it looks into them, and compares programs by name only. *)
Ltac maintain_with :=
  repeat first
    [ match goal with
      | H : maintains ?P ?m |- maintains ?P ?m => exact H
      | H : forall s, maintains ?P (saveHighscores s) |- maintains ?P (saveHighscores _) =>
          apply H
      end
    | apply maintains_ret | apply maintains_get | apply maintains_millis
    | apply maintains_buttonLow | apply maintains_random
    | apply maintains_bind; [|intros ?] | apply maintains_when
    | apply maintains_if | apply maintains_for; intros ?
    | apply maintains_modify; intros ? ?
    | lazymatch goal with
      | |- maintains _ _ => fail
      | _ => assumption
      end ].

Lemma submit_index_range (s : Z) (hs : list Z) :
  length hs = 5%nat -> -1 <= snd (submit s hs) <= 4.
Proof.
  intros H. destruct (length5_inv hs H) as (a & b & c & d & e & ->).
  rewrite submit_cases. bool_cases; cbn [snd]; lia.
Qed.

Lemma saveHighscores_arraysIntact (s : Z) : maintains arraysIntact (saveHighscores s).
Proof.
  intros g p (Hlen & Htable & Hidx).
  unfold arraysIntact. rewrite highscores_after_save, index_after_save.
  split; [exact Hlen|]. split; [now apply submit_rankedTable|].
  apply submit_index_range, Htable.
Qed.

Lemma arraysIntact_set_pipes (ps : list Pipe) (g : Game) :
  length ps = 3%nat -> arraysIntact g -> arraysIntact (set_pipes ps g).
Proof.
  intros Hps (_ & Htable & Hidx).
  split; [exact Hps|]. split; [exact Htable|exact Hidx].
Qed.

Lemma movePipes_arraysIntact : maintains arraysIntact movePipes.
Proof.
  unfold movePipes, movePipe, recyclePipe, setPipeX, setPipeHeight, getPipe,
    findFurthestPipe, jitter.
  maintain_with;
    try (apply arraysIntact_set_pipes;
         [rewrite length_insert; match goal with H : arraysIntact _ |- _ => apply H end
         |assumption]).
Qed.

Lemma checkCollision_arraysIntact : maintains arraysIntact checkCollision.
Proof.
  pose proof saveHighscores_arraysIntact as Hsave.
  unfold checkCollision, checkPipe, endRun, getPipe. maintain_with.
Qed.

Lemma resetGame_reachableShape : maintains reachableShape resetGame.
Proof.
  intros g p [(Hlen & Htable & Hidx) _].
  rewrite (resetGame_run g p Hlen).
  split; [split; [reflexivity|]; split; [exact Htable|exact Hidx]|].
  unfold motionBounded.
  cbn [velocity birdY gameOver set_pipes set_gameOver set_score set_velocity set_birdY].
  unfold_consts. lia.
Qed.

Lemma loop_PLAYING_alive_run (g : Game) (p : Platform) :
  gameOver g = false ->
  exists p2 p3,
    gameAfter loop_PLAYING g p =
      gameAfter checkCollision (gameAfter movePipes (gameAfter updateBird g p) p2) p3.
Proof.
  intros Hover. unfold loop_PLAYING. rewrite gameAfter_bind. cbv beta.
  change (gameAfter drawGame ?a ?b) with a.
  rewrite gameAfter_bind. cbv beta.
  change (valueOf (get gameOver) g p) with (gameOver g).
  change (gameAfter (get gameOver) g p) with g.
  change (platformAfter (get gameOver) g p) with p.
  rewrite Hover.
  rewrite gameAfter_bind. cbv beta. rewrite gameAfter_bind. cbv beta.
  eexists _, _. reflexivity.
Qed.

Lemma movePipes_keeps_player (y v : Z) (o : bool) :
  maintains (fun g => birdY g = y /\ velocity g = v /\ gameOver g = o) movePipes.
Proof.
  unfold movePipes, movePipe, recyclePipe, setPipeX, setPipeHeight, getPipe,
    findFurthestPipe, jitter.
  maintain.
Qed.

Lemma playing_frame_shape (g : Game) (p1 p2 p3 : Platform) :
  reachableShape g -> gameOver g = false ->
  reachableShape
    (gameAfter checkCollision (gameAfter movePipes (gameAfter updateBird g p1) p2) p3).
Proof.
  intros [Harr (Hv & Hy & Hlive)] Hover. specialize (Hlive Hover).
  pose proof (updateBird_run g p1) as Hbird. cbv zeta in Hbird.
  rewrite constrain_clamp in Hbird.
  set (v' := Z.max (-50) (Z.min 50 _)) in Hbird.
  assert (Hv' : -50 <= v' <= 50) by (subst v'; lia).
  unfold_consts.
  rewrite (wrap16_id (birdY g + v')) in Hbird by (unfold int16; lia).
  set (gU := gameAfter updateBird g p1) in *.
  assert (HarrU : arraysIntact gU) by (rewrite Hbird; exact Harr).
  assert (HplayerU : birdY gU = (if birdY g + v' <? 0 then 0 else birdY g + v')
                     /\ velocity gU = v' /\ gameOver gU = false).
  { rewrite Hbird. cbn [birdY velocity gameOver set_birdY set_velocity].
    repeat split; try reflexivity; exact Hover. }
  pose proof (movePipes_arraysIntact gU p2 HarrU) as HarrM.
  pose proof (movePipes_keeps_player _ _ _ gU p2 HplayerU) as (HyM & HvM & HoM).
  set (gM := gameAfter movePipes gU p2) in *.
  pose proof (checkCollision_arraysIntact gM p3 HarrM) as HarrC.
  pose proof (checkCollision_frame gM p3) as HF.
  set (gC := gameAfter checkCollision gM p3) in *.
  split; [exact HarrC|].
  unfold motionBounded.
  rewrite (frame_velocity _ _ _ HF), (frame_birdY _ _ _ HF), (frame_gameOver _ _ _ HF).
  rewrite HvM, HyM, HoM. unfold_consts.
  split; [exact Hv'|]. split; [bool_cases; lia|].
  intros Hnone. cbn [orb] in Hnone.
  apply orb_false_elim in Hnone as [_ Hbelow].
  unfold belowScreen in Hbelow. unfold_consts.
  rewrite Z.geb_leb in Hbelow. apply Z.leb_gt in Hbelow. exact Hbelow.
Qed.

Lemma reachableShape_set_gameState (st : GameState) (g : Game) :
  reachableShape g -> reachableShape (set_gameState st g).
Proof. intros H. exact H. Qed.

Lemma loop_reachableShape : maintains reachableShape loop.
Proof.
  pose proof resetGame_reachableShape as Hreset.
  intros g p H. rewrite loop_run. cbv zeta.
  match goal with |- context [if ?c then _ else _] => destruct c end; [exact H|].
  set (g1 := set_frameCounter _ _). set (p1 := platformAfter millis g p).
  assert (H1 : reachableShape g1) by exact H.
  clearbody g1 p1. clear H.
  destruct (gameState g).
  - revert H1. generalize p1. generalize g1.
    change (maintains reachableShape loop_STARTSCREEN).
    unfold loop_STARTSCREEN, renderStartScreen, anyKeyPressed. maintain_with.
  - revert H1. generalize p1. generalize g1.
    change (maintains reachableShape loop_HIGHSCORE).
    unfold loop_HIGHSCORE, renderHighscoreScreen, anyKeyPressed. maintain_with.
  - destruct (gameOver g1) eqn:Hover.
    + rewrite (loop_PLAYING_over_run g1 p1 Hover). cbv zeta.
      match goal with |- context [if ?c && ?b then _ else _] => destruct (c && b) end.
      * apply reachableShape_set_gameState, Hreset.
        match goal with |- context [if ?c then _ else _] => destruct c end; exact H1.
      * match goal with |- context [if ?c then _ else _] => destruct c end; exact H1.
    + destruct (loop_PLAYING_alive_run g1 p1 Hover) as (p2 & p3 & ->).
      now apply playing_frame_shape.
Qed.

Lemma run_reachableShape (n : nat) : maintains reachableShape (run n).
Proof.
  induction n as [|n IH]; cbn [run].
  - apply maintains_ret.
  - apply maintains_bind; [apply loop_reachableShape|intros _; exact IH].
Qed.

Lemma initial_reachableShape : reachableShape initialGame.
Proof.
  split.
  - split; [reflexivity|]. split; [apply initial_rankedTable|]. cbn. lia.
  - unfold motionBounded. cbn. unfold_consts. repeat split; lia.
Qed.

(** X5: whatever the clock, the button and the random source do, after any
    number of calls of [loop] from power-on the pipe array still has its 3
    entries, the highscore table has 5 non-negative entries in
    non-increasing order, and [newHighscoreIndex] is -1 or an index of the
    table. *)
Theorem arrays_stay_intact (n : nat) (p : Platform) :
  let g := gameAfter (run n) initialGame p in
  length (pipes g) = 3%nat /\
  length (highscores g) = 5%nat /\
  Forall (fun v => 0 <= v) (highscores g) /\
  Sorted Z.ge (highscores g) /\
  -1 <= newHighscoreIndex g <= 4.
Proof.
  destruct (run_reachableShape n initialGame p initial_reachableShape)
    as [(Hlen & (H5 & Hpos & Hsort) & Hidx) _].
  cbv zeta. repeat split; assumption || apply Hidx.
Qed.

(** X6: after any number of calls of [loop] from power-on the velocity lies
    in [-50, 50] and the position in [0, 689]; as long as the run is not
    over the position is below the screen height 640.  So the sum
    [birdY + velocity] that the next frame stores always fits an [int]. *)
Theorem motion_stays_bounded (n : nat) (p : Platform) :
  let g := gameAfter (run n) initialGame p in
  -50 <= velocity g <= 50 /\
  0 <= birdY g <= 689 /\
  (gameOver g = false -> birdY g < SCREEN_HEIGHT * SCALE_FACTOR) /\
  (forall v, -50 <= v <= 50 -> int16 (birdY g + v)).
Proof.
  destruct (run_reachableShape n initialGame p initial_reachableShape)
    as [_ (Hv & Hy & Hlive)].
  cbv zeta. split; [exact Hv|]. split; [exact Hy|]. split; [exact Hlive|].
  intros v Hrange. unfold int16. lia.
Qed.

(** *** More on the highscore table *)

(** X7: when [saveHighscores] reports an index, the table holds the
    submitted score at that index, and the new table consists of the
    submitted score and the four best old entries; when it reports -1 the
    table is the old one. *)
Theorem saveHighscores_index_finds_score (s : Z) (g : Game) (p : Platform) :
  length (highscores g) = 5%nat ->
  let g' := gameAfter (saveHighscores s) g p in
  (newHighscoreIndex g' <> -1 ->
     highscores g' !! Z.to_nat (newHighscoreIndex g') = Some s /\
     highscores g' ≡ₚ s :: take 4 (highscores g)) /\
  (newHighscoreIndex g' = -1 -> highscores g' = highscores g).
Proof.
  intros H g'. subst g'. rewrite highscores_after_save, index_after_save.
  destruct (length5_inv _ H) as (a & b & c & d & e & ->).
  rewrite submit_cases.
  bool_cases; cbn [fst snd take]; split; intros Hidx; try lia; try reflexivity;
    (split; [reflexivity|solve_Permutation]).
Qed.

Lemma saveHighscores_index_finds_score_witness :
  length (highscores rankedGame) = 5%nat /\
  highscores (gameAfter (saveHighscores 35) rankedGame quietPlatform)
    !! Z.to_nat (newHighscoreIndex (gameAfter (saveHighscores 35) rankedGame quietPlatform))
  = Some 35.
Proof.
  split; [reflexivity|].
  apply (proj1 (saveHighscores_index_finds_score 35 rankedGame quietPlatform eq_refl)).
  vm_compute. discriminate.
Defined.

(** X8: a score of 0, or a negative one, never enters a table of
    non-negative entries: a run in which no pipe was passed leaves the
    table as it is and marks no entry, even while the table still holds the
    zeros of power-on. *)
Theorem zero_score_not_ranked (s : Z) (g : Game) (p : Platform) :
  length (highscores g) = 5%nat ->
  Forall (fun v => 0 <= v) (highscores g) ->
  s <= 0 ->
  let g' := gameAfter (saveHighscores s) g p in
  highscores g' = highscores g /\ newHighscoreIndex g' = -1.
Proof.
  intros H Hpos Hs g'. subst g'. rewrite highscores_after_save, index_after_save.
  rewrite (submit_none s (highscores g) H).
  - split; reflexivity.
  - intros v Hin. rewrite Forall_forall in Hpos. specialize (Hpos v Hin). lia.
Qed.

Lemma zero_score_not_ranked_witness :
  length (highscores initialGame) = 5%nat /\
  highscores (gameAfter (saveHighscores 0) initialGame quietPlatform) = [0; 0; 0; 0; 0].
Proof.
  split; [reflexivity|].
  refine (proj1 (zero_score_not_ranked 0 initialGame quietPlatform eq_refl _ _)).
  - change (Forall (fun v => 0 <= v) [0; 0; 0; 0; 0]). rewrite forall5. lia.
  - lia.
Defined.

(** *** Spacing of the pipes *)

Lemma spaced3 (a b c : Pipe) :
  spaced [a; b; c] <-> apart a b /\ apart a c /\ apart b c.
Proof.
  unfold spaced, apart. split.
  - intros H.
    pose proof (H 0%nat 1%nat ltac:(lia) ltac:(cbn; lia) ltac:(cbn; lia)) as H01.
    pose proof (H 0%nat 2%nat ltac:(lia) ltac:(cbn; lia) ltac:(cbn; lia)) as H02.
    pose proof (H 1%nat 2%nat ltac:(lia) ltac:(cbn; lia) ltac:(cbn; lia)) as H12.
    cbn in H01, H02, H12. auto.
  - intros (H01 & H02 & H12) i j Hne Hi Hj. cbn [length] in Hi, Hj.
    destruct i as [|[|[|i]]]; destruct j as [|[|[|j]]]; try lia;
      cbn [lookup_total list_lookup_total]; lia.
Qed.

(** One iteration of [movePipes] for chaining: a recycled pipe lands at
    least 450 to the right of every other pipe as it stands, and at most
    at [B + 840]. *)
Lemma movePipe_placing (B speed : Z) (i : nat) (g : Game) (p : Platform) :
  length (pipes g) = 3%nat -> (i < 3)%nat ->
  let q := pipes g !!! i in
  int16 (x q - speed) ->
  0 <= B <= 31900 ->
  (forall j, (j < 3)%nat -> j <> i -> x (pipes g !!! j) <= B) ->
  let g' := gameAfter (movePipe speed i) g p in
  exists q',
    pipes g' = <[i := q']> (pipes g) /\
    (if passed speed q
     then x q' <= B + 840 /\
          forall j, (j < 3)%nat -> j <> i -> x (pipes g !!! j) + 450 <= x q'
     else q' = advanced speed q).
Proof.
  intros Hlen Hi q Hmove HB Hroom g'.
  assert (Hroom' : forall j, (j < 3)%nat -> j <> i -> x (pipes g !!! j) <= 31900).
  { intros j Hj Hne. specialize (Hroom j Hj Hne). lia. }
  destruct (movePipe_summary B speed i g p Hlen Hi Hmove HB Hroom)
    as (q' & Hps & _ & Hq').
  fold q g' in Hps, Hq'.
  exists q'. split; [exact Hps|].
  destruct (passed speed q) eqn:Hpassed; [|exact Hq'].
  split; [lia|].
  intros j Hj Hne.
  destruct (proj2 (movePipe_step speed i g p Hlen Hi Hmove Hroom') Hpassed)
    as (r & h & Hr & Hh & Hps2 & _).
  fold g' q in Hps2.
  assert (Hq : q' = pipes g' !!! i)
    by (rewrite Hps, list_lookup_total_insert_eq by lia; reflexivity).
  rewrite Hps2, list_lookup_total_insert_eq in Hq by lia. subst q'. cbn [x].
  set (atRecycle := <[i:=advanced speed q]> (pipes g)).
  assert (Hlen' : length atRecycle = 3%nat)
    by (subst atRecycle; now rewrite length_insert).
  pose proof (maxPosition_ge atRecycle j Hlen' Hj) as Hge.
  subst atRecycle. rewrite list_lookup_total_insert_ne in Hge by congruence.
  unfold_consts. lia.
Qed.

Lemma movePipes_placing_run (g : Game) (p : Platform) (q0 q1 q2 : Pipe) :
  pipes g = [q0; q1; q2] ->
  0 <= score g <= 30000 ->
  (forall j, (j < 3)%nat -> -2000 <= x (pipes g !!! j) <= 29000) ->
  let speed := PIPE_SPEED + score g in
  exists a0 a1 a2,
    pipes (gameAfter movePipes g p) = [a0; a1; a2] /\
    (if passed speed q0
     then x q1 + 450 <= x a0 /\ x q2 + 450 <= x a0
     else a0 = advanced speed q0) /\
    (if passed speed q1
     then x a0 + 450 <= x a1 /\ x q2 + 450 <= x a1
     else a1 = advanced speed q1) /\
    (if passed speed q2
     then x a0 + 450 <= x a2 /\ x a1 + 450 <= x a2
     else a2 = advanced speed q2).
Proof.
  intros Hps Hscore Hrange speed.
  rewrite gameAfter_movePipes.
  rewrite (wrap16_id (PIPE_SPEED + score g)) by (unfold int16; unfold_consts; lia).
  fold speed. unfold MAX_PIPES. cbn [for_].
  pose proof (Hrange 0%nat ltac:(lia)) as R0.
  pose proof (Hrange 1%nat ltac:(lia)) as R1.
  pose proof (Hrange 2%nat ltac:(lia)) as R2.
  rewrite Hps in R0, R1, R2. cbn [lookup_total list_lookup_total] in R0, R1, R2.
  assert (Hspeed : 10 <= speed <= 30010) by (subst speed; unfold_consts; lia).
  (* pipe 0 *)
  rewrite (gameAfter_bind (movePipe speed 0)).
  destruct (movePipe_placing 29000 speed 0 g p) as (a0 & P0 & A0);
    [ now rewrite Hps | lia | rewrite Hps; unfold int16; cbn; lia | lia | | ].
  { rewrite Hps. intros [|[|[|j]]] Hj Hne; cbn; lia. }
  rewrite Hps in P0, A0. cbn [insert list_insert lookup_total list_lookup_total] in P0, A0.
  set (g0 := gameAfter (movePipe speed 0) g p) in *.
  generalize (platformAfter (movePipe speed 0) g p). intros p0.
  assert (X0 : x a0 <= 29840).
  { destruct (passed speed q0); [lia|]. subst a0. cbn. lia. }
  assert (B0 : if passed speed q0
               then x q1 + 450 <= x a0 /\ x q2 + 450 <= x a0
               else a0 = advanced speed q0).
  { destruct (passed speed q0); [|exact A0]. destruct A0 as [_ A0].
    pose proof (A0 1%nat ltac:(lia) ltac:(lia)). pose proof (A0 2%nat ltac:(lia) ltac:(lia)).
    cbn [lookup_total list_lookup_total] in *. lia. }
  clear A0.
  (* pipe 1 *)
  rewrite (gameAfter_bind (movePipe speed 1)).
  destruct (movePipe_placing 29840 speed 1 g0 p0) as (a1 & P1 & A1);
    [ now rewrite P0 | lia | rewrite P0; unfold int16; cbn; lia | lia | | ].
  { rewrite P0. intros [|[|[|j]]] Hj Hne; cbn; lia. }
  rewrite P0 in P1, A1. cbn [insert list_insert lookup_total list_lookup_total] in P1, A1.
  set (g1 := gameAfter (movePipe speed 1) g0 p0) in *.
  generalize (platformAfter (movePipe speed 1) g0 p0). intros p1.
  assert (X1 : x a1 <= 30680).
  { destruct (passed speed q1); [lia|]. subst a1. cbn. lia. }
  assert (B1 : if passed speed q1
               then x a0 + 450 <= x a1 /\ x q2 + 450 <= x a1
               else a1 = advanced speed q1).
  { destruct (passed speed q1); [|exact A1]. destruct A1 as [_ A1].
    pose proof (A1 0%nat ltac:(lia) ltac:(lia)). pose proof (A1 2%nat ltac:(lia) ltac:(lia)).
    cbn [lookup_total list_lookup_total] in *. lia. }
  clear A1.
  (* pipe 2 *)
  rewrite (gameAfter_bind (movePipe speed 2)).
  destruct (movePipe_placing 30680 speed 2 g1 p1) as (a2 & P2 & A2);
    [ now rewrite P1 | lia | rewrite P1; unfold int16; cbn; lia | lia | | ].
  { rewrite P1. intros [|[|[|j]]] Hj Hne; cbn; lia. }
  rewrite P1 in P2, A2. cbn [insert list_insert lookup_total list_lookup_total] in P2, A2.
  set (g2 := gameAfter (movePipe speed 2) g1 p1) in *.
  generalize (platformAfter (movePipe speed 2) g1 p1). intros p2.
  change (gameAfter (ret ()) g2 p2) with g2.
  assert (B2 : if passed speed q2
               then x a0 + 450 <= x a2 /\ x a1 + 450 <= x a2
               else a2 = advanced speed q2).
  { destruct (passed speed q2); [|exact A2]. destruct A2 as [_ A2].
    pose proof (A2 0%nat ltac:(lia) ltac:(lia)). pose proof (A2 1%nat ltac:(lia) ltac:(lia)).
    cbn [lookup_total list_lookup_total] in *. lia. }
  exists a0, a1, a2. repeat split; assumption.
Qed.

Lemma movePipes_spaced (g : Game) (p : Platform) :
  length (pipes g) = 3%nat ->
  0 <= score g <= 30000 ->
  (forall j, (j < 3)%nat -> -2000 <= x (pipes g !!! j) <= 29000) ->
  spaced (pipes g) -> spaced (pipes (gameAfter movePipes g p)).
Proof.
  intros Hlen Hscore Hrange Hsp.
  destruct (length3_inv _ Hlen) as (q0 & q1 & q2 & Hps).
  destruct (movePipes_placing_run g p q0 q1 q2 Hps Hscore Hrange)
    as (a0 & a1 & a2 & Hps' & B0 & B1 & B2).
  rewrite Hps', spaced3. rewrite Hps, spaced3 in Hsp. unfold apart in *.
  assert (Hspeed : 10 <= PIPE_SPEED + score g) by (unfold_consts; lia).
  set (speed := PIPE_SPEED + score g) in *. clearbody speed.
  destruct (passed speed q0), (passed speed q1), (passed speed q2);
    repeat match goal with
      | H : ?a = advanced _ _ |- _ => subst a
      end;
    unfold advanced in *; cbn [x] in *; lia.
Qed.

Lemma resetGame_spaced (g : Game) (p : Platform) :
  length (pipes g) = 3%nat -> spaced (pipes (gameAfter resetGame g p)).
Proof.
  intros Hlen. rewrite (resetGame_run g p Hlen). cbn [pipes set_pipes].
  pose proof (drawAt_range p 1 (-20) 20 ltac:(lia)) as J1.
  pose proof (drawAt_range p 3 (-20) 20 ltac:(lia)) as J2.
  rewrite spaced3. unfold apart. cbn [x]. lia.
Qed.

(** X9: the pipes never come close to each other.  [resetGame] places the
    three pipes at least 260 apart, and [movePipes] keeps three pipes that
    are pairwise at least 260 apart pairwise at least 260 apart, whichever
    of them it recycles (no [int] overflowing: score at most 30000,
    positions between -2000 and 29000). *)
Theorem pipes_stay_spaced (g : Game) (p : Platform) :
  length (pipes g) = 3%nat ->
  spaced (pipes (gameAfter resetGame g p)) /\
  (0 <= score g <= 30000 ->
   (forall j, (j < 3)%nat -> -2000 <= x (pipes g !!! j) <= 29000) ->
   spaced (pipes g) ->
   spaced (pipes (gameAfter movePipes g p))).
Proof.
  intros Hlen. split.
  - now apply resetGame_spaced.
  - intros Hscore Hrange. now apply movePipes_spaced.
Qed.

Lemma recyclingGame_spaced : spaced (pipes recyclingGame).
Proof.
  change (spaced [mkPipe (-140) 150; mkPipe 510 120; mkPipe 1160 180]).
  rewrite spaced3. unfold apart. cbn [x]. lia.
Qed.

Lemma pipes_stay_spaced_witness :
  length (pipes recyclingGame) = 3%nat /\
  spaced (pipes (gameAfter movePipes recyclingGame highDraws)).
Proof.
  split; [reflexivity|].
  apply (proj2 (pipes_stay_spaced recyclingGame highDraws eq_refl)).
  - cbn; lia.
  - apply recyclingGame_range.
  - apply recyclingGame_spaced.
Defined.

Lemma overlapsBird_column (q : Pipe) :
  -2000 <= x q <= 29000 -> overlapsBird q = true -> -20 < x q < 170.
Proof.
  intros Hx. unfold overlapsBird. unfold_consts.
  rewrite (wrap16_id (x q + 15 * 10)) by (unfold int16; lia).
  rewrite andb_true_iff, Z.gtb_ltb, !Z.ltb_lt. lia.
Qed.

(** X10: with pipes that are pairwise at least 260 apart, at most one pipe
    stands in the player's column, so at most one of the pipe tests of
    [checkCollision] is positive in a frame. *)
Theorem one_pipe_at_a_time (g : Game) (y : Z) (i j : nat) :
  length (pipes g) = 3%nat ->
  spaced (pipes g) ->
  (forall k, (k < 3)%nat -> -2000 <= x (pipes g !!! k) <= 29000) ->
  (i < 3)%nat -> (j < 3)%nat -> i <> j ->
  hitsPipe y (pipes g !!! i) = true ->
  hitsPipe y (pipes g !!! j) = false.
Proof.
  intros Hlen Hsp Hrange Hi Hj Hne Hhit.
  unfold hitsPipe in *.
  destruct (overlapsBird (pipes g !!! i)) eqn:Oi; [|discriminate].
  destruct (overlapsBird (pipes g !!! j)) eqn:Oj; [|reflexivity].
  apply overlapsBird_column in Oi; [|now apply Hrange].
  apply overlapsBird_column in Oj; [|now apply Hrange].
  specialize (Hsp i j Hne ltac:(lia) ltac:(lia)). unfold apart in Hsp. lia.
Qed.

Lemma one_pipe_at_a_time_witness :
  length (pipes crashGame) = 3%nat /\
  hitsPipe (birdY crashGame) (pipes crashGame !!! 0%nat) = true /\
  hitsPipe (birdY crashGame) (pipes crashGame !!! 1%nat) = false.
Proof.
  split; [reflexivity|]. split; [reflexivity|].
  apply (one_pipe_at_a_time crashGame (birdY crashGame) 0 1 eq_refl).
  - change (spaced [mkPipe 160 200; mkPipe 810 150; mkPipe 1460 120]).
    rewrite spaced3. unfold apart. cbn [x]. lia.
  - intros [|[|[|k]]] Hk; cbn; lia.
  - lia.
  - lia.
  - lia.
  - reflexivity.
Defined.

(** *** The collision check in a frame *)

Ltac run_checkCollision :=
  unfold checkCollision, checkPipe, MAX_PIPES, endRun, saveHighscores, getPipe,
    millis, get, modify, when;
  cbn [for_]; unfold bind, ret;
  repeat (cbn [fst snd birdY pipes score highscores gameOver gameOverTime
               newHighscoreIndex set_gameOver set_gameOverTime set_highscores
               set_newHighscoreIndex millis_src millis_calls];
          match goal with
          | H : ?c = _ |- context [if ?c then _ else _] => rewrite H
          end);
  cbn [fst snd birdY pipes score highscores gameOver gameOverTime
       newHighscoreIndex set_gameOver set_gameOverTime set_highscores
       set_newHighscoreIndex millis_src millis_calls].

Lemma checkCollision_single (g : Game) (p : Platform) (h0 h1 h2 hb : bool) :
  hitsPipe (birdY g) (pipes g !!! 0%nat) = h0 ->
  hitsPipe (birdY g) (pipes g !!! 1%nat) = h1 ->
  hitsPipe (birdY g) (pipes g !!! 2%nat) = h2 ->
  belowScreen (birdY g) = hb ->
  (h0 || h1 || h2 || hb = false -> checkCollision g p = (tt, g, p)) /\
  (Z.b2z h0 + Z.b2z h1 + Z.b2z h2 + Z.b2z hb = 1 ->
     checkCollision g p = endRun g p).
Proof.
  intros H0 H1 H2 Hb. split; intros Hcount;
    destruct h0, h1, h2, hb; try discriminate Hcount; cbn in Hcount; try lia;
    run_checkCollision; reflexivity.
Qed.

(** X11: what [checkCollision] does in a frame.  When no pipe test is
    positive and the player is above the bottom, it changes nothing and
    does not read the clock.  When exactly one of the four tests is
    positive, the run is over, [gameOverTime] is the next clock reading,
    the clock is read once, and the highscore table and its index are what
    one call of [saveHighscores] with the score makes of them; position,
    pipes, score and game state are as before. *)
Theorem checkCollision_outcome (g : Game) (p : Platform) :
  let h0 := hitsPipe (birdY g) (pipes g !!! 0%nat) in
  let h1 := hitsPipe (birdY g) (pipes g !!! 1%nat) in
  let h2 := hitsPipe (birdY g) (pipes g !!! 2%nat) in
  let hb := belowScreen (birdY g) in
  let g' := gameAfter checkCollision g p in
  let p' := platformAfter checkCollision g p in
  (h0 || h1 || h2 || hb = false -> g' = g /\ p' = p) /\
  (Z.b2z h0 + Z.b2z h1 + Z.b2z h2 + Z.b2z hb = 1 ->
     gameOver g' = true /\
     gameOverTime g' = wrapU32 (millis_src p (millis_calls p)) /\
     millis_calls p' = S (millis_calls p) /\
     highscores g' = highscores (gameAfter (saveHighscores (score g)) g p) /\
     newHighscoreIndex g' = newHighscoreIndex (gameAfter (saveHighscores (score g)) g p) /\
     birdY g' = birdY g /\ pipes g' = pipes g /\ score g' = score g /\
     gameState g' = gameState g).
Proof.
  intros h0 h1 h2 hb g' p'. subst g' p'.
  destruct (checkCollision_single g p h0 h1 h2 hb eq_refl eq_refl eq_refl eq_refl)
    as [Hquiet Hone].
  unfold gameAfter, platformAfter.
  split; intros H.
  - rewrite (Hquiet H). split; reflexivity.
  - rewrite (Hone H). repeat split; reflexivity.
Qed.

(** *** Repeated physics steps *)

Lemma updateBird_button_src (g : Game) (p : Platform) :
  button_src (platformAfter updateBird g p) = button_src p.
Proof.
  unfold updateBird, platformAfter, bind, buttonLow, when, modify, get, ret.
  destruct (button_src p (button_calls p)); cbn [fst snd];
    match goal with |- context [if ?c then _ else _] => destruct c end; reflexivity.
Qed.

(** A physics step reads the button exactly once. *)
Lemma updateBird_button_calls (g : Game) (p : Platform) :
  button_calls (platformAfter updateBird g p) = S (button_calls p).
Proof.
  unfold updateBird, platformAfter, bind, buttonLow, when, modify, get, ret.
  destruct (button_src p (button_calls p)); cbn [fst snd];
    match goal with |- context [if ?c then _ else _] => destruct c end; reflexivity.
Qed.

Lemma updateBirdTimes_button_calls (n from : nat) (g : Game) (p : Platform) :
  button_calls (platformAfter (for_ from n (fun _ => updateBird)) g p)
    = (button_calls p + n)%nat.
Proof.
  revert from g p. induction n as [|n IH]; intros from g p.
  - cbn [for_]. change (platformAfter (ret ()) g p) with p. lia.
  - cbn [for_]. rewrite platformAfter_bind. cbv beta.
    rewrite IH, updateBird_button_calls. lia.
Qed.

Lemma updateBirdTimes_released (n from : nat) (g : Game) (p : Platform) :
  (forall k, (button_calls p <= k < button_calls p + n)%nat -> button_src p k = false) ->
  -50 <= velocity g <= 50 ->
  velocity (gameAfter (for_ from n (fun _ => updateBird)) g p)
    = Z.min 50 (velocity g + GRAVITY * Z.of_nat n).
Proof.
  revert from g p. induction n as [|n IH]; intros from g p Hb Hv.
  - cbn [for_]. change (gameAfter (ret ()) g p) with g. unfold_consts. lia.
  - cbn [for_]. rewrite gameAfter_bind. cbv beta.
    pose proof (updateBird_run g p) as Hrun. cbv zeta in Hrun.
    rewrite (Hb (button_calls p)), constrain_clamp in Hrun by lia.
    rewrite IH.
    + rewrite Hrun. cbn [velocity set_birdY set_velocity]. unfold_consts. lia.
    + intros k. rewrite updateBird_button_src, updateBird_button_calls.
      intros Hk. apply Hb. lia.
    + rewrite Hrun. cbn [velocity set_birdY set_velocity]. unfold_consts. lia.
Qed.

Lemma updateBirdTimes_held (n from : nat) (g : Game) (p : Platform) :
  (forall k, (button_calls p <= k < button_calls p + S n)%nat -> button_src p k = true) ->
  0 <= birdY g <= 689 ->
  let g' := gameAfter (for_ from (S n) (fun _ => updateBird)) g p in
  velocity g' = JUMP_STRENGTH + GRAVITY /\
  birdY g' = Z.max 0 (birdY g - 20 * Z.of_nat (S n)).
Proof.
  revert from g p. induction n as [|n IH]; intros from g p Hb Hy g'; subst g'.
  - cbn [for_]. rewrite gameAfter_bind. cbv beta.
    change (gameAfter (ret ()) ?a ?b) with a.
    pose proof (updateBird_run g p) as Hrun. cbv zeta in Hrun.
    rewrite (Hb (button_calls p)), constrain_clamp in Hrun by lia. unfold_consts.
    rewrite (wrap16_id (birdY g + Z.max (-50) (Z.min 50 (-25 + 5)))) in Hrun
      by (unfold int16; lia).
    rewrite Hrun. cbn [velocity birdY set_birdY set_velocity].
    split; [lia|]. bool_cases; lia.
  - change (for_ from (S (S n)) (fun _ => updateBird))
      with (updateBird >> for_ (S from) (S n) (fun _ => updateBird)).
    rewrite gameAfter_bind. cbv beta.
    pose proof (updateBird_run g p) as Hrun. cbv zeta in Hrun.
    rewrite (Hb (button_calls p)), constrain_clamp in Hrun by lia. unfold_consts.
    rewrite (wrap16_id (birdY g + Z.max (-50) (Z.min 50 (-25 + 5)))) in Hrun
      by (unfold int16; lia).
    assert (Hy1 : birdY (gameAfter updateBird g p) = Z.max 0 (birdY g - 20)).
    { rewrite Hrun. cbn [birdY set_birdY]. bool_cases; lia. }
    destruct (IH (S from) (gameAfter updateBird g p) (platformAfter updateBird g p))
      as [Hv' Hy'].
    + intros k. rewrite updateBird_button_src, updateBird_button_calls.
      intros Hk. apply Hb. lia.
    + rewrite Hy1. lia.
    + split; [exact Hv'|]. rewrite Hy', Hy1. lia.
Qed.

(** X12: several physics steps in a row.  The [n] steps read the button
    [n] times, the reads number [button_calls p] to
    [button_calls p + n - 1] of the platform.  When the button is released
    at each of these reads, the velocity after the [n] steps is the old one
    plus 5 per step, capped at the terminal velocity 50, which is reached
    after at most 20 steps.  When the button is held at each of these
    reads, the velocity is -20 after every step and the player rises 20
    per step until it sits at the top edge 0.  What the button does before
    or after these reads plays no role. *)
Theorem repeated_physics_steps (n : nat) (g : Game) (p : Platform) :
  -50 <= velocity g <= 50 ->
  0 <= birdY g <= 689 ->
  button_calls (platformAfter (updateBirdTimes n) g p) = (button_calls p + n)%nat /\
  ((forall k, (button_calls p <= k < button_calls p + n)%nat -> button_src p k = false) ->
     velocity (gameAfter (updateBirdTimes n) g p)
       = Z.min 50 (velocity g + GRAVITY * Z.of_nat n) /\
     ((20 <= n)%nat -> velocity (gameAfter (updateBirdTimes n) g p) = 50)) /\
  ((forall k, (button_calls p <= k < button_calls p + n)%nat -> button_src p k = true) ->
   (1 <= n)%nat ->
     velocity (gameAfter (updateBirdTimes n) g p) = -20 /\
     birdY (gameAfter (updateBirdTimes n) g p) = Z.max 0 (birdY g - 20 * Z.of_nat n)).
Proof.
  intros Hv Hy. unfold updateBirdTimes.
  split; [apply updateBirdTimes_button_calls|]. split.
  - intros Hb. rewrite (updateBirdTimes_released n 0 g p Hb Hv).
    split; [reflexivity|]. intros Hn. unfold_consts. lia.
  - intros Hb Hn. destruct n as [|n]; [lia|].
    apply (updateBirdTimes_held n 0 g p Hb Hy).
Qed.

Lemma repeated_physics_steps_witness :
  (-50 <= velocity fallingGame <= 50) /\
  (0 <= birdY fallingGame <= 689) /\
  (forall k, (button_calls afterTap <= k < button_calls afterTap + 3)%nat ->
     button_src afterTap k = false) /\
  velocity (gameAfter (updateBirdTimes 3) fallingGame afterTap) = 50.
Proof.
  assert (Hv : -50 <= velocity fallingGame <= 50) by (cbn; lia).
  assert (Hy : 0 <= birdY fallingGame <= 689) by (cbn; lia).
  assert (Hb : forall k, (button_calls afterTap <= k < button_calls afterTap + 3)%nat ->
                 button_src afterTap k = false).
  { intros k Hk. cbn in Hk. destruct k as [|k]; [lia|reflexivity]. }
  split; [exact Hv|]. split; [exact Hy|]. split; [exact Hb|].
  rewrite (proj1 (proj1 (proj2 (repeated_physics_steps 3 fallingGame afterTap Hv Hy))
                   Hb)).
  reflexivity.
Defined.

(** *** Drawing the pipes *)

(** X13: the rectangles of a pipe whose gap starts between 100 and 239, as
    [resetGame] and [movePipes] draw it.  The upper segment starts at the
    top of the screen and is at least 4 pixels high; its cap follows and
    ends where the gap starts; the gap is exactly 30 pixels; the lower cap
    follows, then the lower segment, at least 5 pixels high, which ends
    exactly at the bottom of the screen.  The caps are 2 pixels wider on
    each side.  The drawn gap is the gap of the collision check in whole
    pixels: its start and its end are the scaled values divided by 10,
    rounded down. *)
Theorem pipeRects_geometry (q : Pipe) :
  100 <= height q < 240 ->
  exists upper upperCap lowerCap lower,
    pipeRects q = [upper; upperCap; lowerCap; lower] /\
    rect_y upper = 0 /\ 4 <= rect_h upper /\
    rect_y upperCap = rect_y upper + rect_h upper /\
    rect_h upperCap = 6 /\ rect_h lowerCap = 6 /\
    rect_y lowerCap - (rect_y upperCap + rect_h upperCap) = 30 /\
    rect_y lower = rect_y lowerCap + rect_h lowerCap /\
    5 <= rect_h lower /\
    rect_y lower + rect_h lower = SCREEN_HEIGHT /\
    rect_w upper = 15 /\ rect_w lower = 15 /\
    rect_x lower = rect_x upper /\
    rect_x upperCap = rect_x upper - 2 /\ rect_w upperCap = rect_w upper + 4 /\
    rect_x lowerCap = rect_x upper - 2 /\ rect_w lowerCap = rect_w upper + 4 /\
    10 * (rect_y upperCap + rect_h upperCap) <= height q
      < 10 * (rect_y upperCap + rect_h upperCap) + 10 /\
    10 * rect_y lowerCap <= height q + PIPE_GAP < 10 * rect_y lowerCap + 10.
Proof.
  intros Hh. unfold pipeRects. unfold_consts.
  eexists _, _, _, _. split; [reflexivity|].
  cbn [rect_x rect_y rect_w rect_h].
  change (Z.quot (15 * 10) 10) with 15. change (Z.quot (30 * 10) 10) with 30.
  rewrite (Z.quot_div_nonneg (height q) 10) by lia.
  pose proof (Z.div_mod (height q) 10 ltac:(lia)) as Hdm.
  pose proof (Z.mod_pos_bound (height q) 10 ltac:(lia)) as Hm.
  repeat split; lia.
Qed.

Lemma pipeRects_geometry_witness :
  (100 <= height (mkPipe 160 205) < 240) /\
  exists upper upperCap lowerCap lower,
    pipeRects (mkPipe 160 205) = [upper; upperCap; lowerCap; lower] /\
    rect_y lower + rect_h lower = SCREEN_HEIGHT.
Proof.
  assert (Hh : 100 <= height (mkPipe 160 205) < 240) by (cbn; lia).
  split; [exact Hh|].
  destruct (pipeRects_geometry (mkPipe 160 205) Hh)
    as (a & b & c & d & Hrects & _ & _ & _ & _ & _ & _ & _ & _ & Hbottom & _).
  exists a, b, c, d. split; [exact Hrects|exact Hbottom].
Defined.

(** *** Gaps on the screen *)

Lemma movePipe_gaps (speed : Z) (i : nat) (g : Game) (p : Platform) :
  (i < 3)%nat -> length (pipes g) = 3%nat -> Forall gapOnScreen (pipes g) ->
  let g' := gameAfter (movePipe speed i) g p in
  length (pipes g') = 3%nat /\ Forall gapOnScreen (pipes g') /\
  gameState g' = gameState g.
Proof.
  intros Hi Hlen Hok g'. subst g'.
  assert (Hq : gapOnScreen (pipes g !!! i)).
  { rewrite Forall_lookup in Hok. apply (Hok i).
    apply list_lookup_lookup_total_lt. lia. }
  rewrite movePipe_run by lia. cbv zeta.
  destruct (wrap16 (x (pipes g !!! i) - speed) <? - PIPE_WIDTH).
  - rewrite recyclePipe_run by (cbn [pipes set_pipes]; rewrite length_insert; lia).
    cbn [pipes gameState set_pipes set_score].
    rewrite list_insert_insert_eq, length_insert.
    split; [exact Hlen|]. split; [|reflexivity].
    apply Forall_insert; [exact Hok|].
    unfold gapOnScreen. cbn [height]. apply nextHeight_range.
  - cbn [pipes gameState set_pipes]. rewrite length_insert.
    split; [exact Hlen|]. split; [|reflexivity].
    apply Forall_insert; [exact Hok|exact Hq].
Qed.

Lemma movePipes_gaps (g : Game) (p : Platform) :
  length (pipes g) = 3%nat -> Forall gapOnScreen (pipes g) ->
  let g' := gameAfter movePipes g p in
  length (pipes g') = 3%nat /\ Forall gapOnScreen (pipes g') /\
  gameState g' = gameState g.
Proof.
  intros Hlen Hok g'. subst g'.
  rewrite gameAfter_movePipes. generalize (wrap16 (PIPE_SPEED + score g)). intros speed.
  unfold MAX_PIPES. cbn [for_].
  rewrite (gameAfter_bind (movePipe speed 0)).
  destruct (movePipe_gaps speed 0 g p ltac:(lia) Hlen Hok) as (L0 & F0 & S0).
  revert L0 F0 S0. generalize (gameAfter (movePipe speed 0) g p).
  generalize (platformAfter (movePipe speed 0) g p). intros p0 g0 L0 F0 S0.
  rewrite (gameAfter_bind (movePipe speed 1)).
  destruct (movePipe_gaps speed 1 g0 p0 ltac:(lia) L0 F0) as (L1 & F1 & S1).
  revert L1 F1 S1. generalize (gameAfter (movePipe speed 1) g0 p0).
  generalize (platformAfter (movePipe speed 1) g0 p0). intros p1 g1 L1 F1 S1.
  rewrite (gameAfter_bind (movePipe speed 2)).
  destruct (movePipe_gaps speed 2 g1 p1 ltac:(lia) L1 F1) as (L2 & F2 & S2).
  revert L2 F2 S2. generalize (gameAfter (movePipe speed 2) g1 p1).
  generalize (platformAfter (movePipe speed 2) g1 p1). intros p2 g2 L2 F2 S2.
  change (gameAfter (ret ()) g2 p2) with g2.
  split; [exact L2|]. split; [exact F2|]. congruence.
Qed.

Lemma resetGame_gaps (g : Game) (p : Platform) :
  length (pipes g) = 3%nat ->
  length (pipes (gameAfter resetGame g p)) = 3%nat /\
  Forall gapOnScreen (pipes (gameAfter resetGame g p)).
Proof.
  intros Hlen. rewrite (resetGame_run g p Hlen). cbn [pipes set_pipes].
  split; [reflexivity|].
  repeat constructor; unfold gapOnScreen; cbn [height];
    apply drawAt_range; lia.
Qed.

Lemma pipesDrawable_started (st : GameState) (g : Game) :
  length (pipes g) = 3%nat -> Forall gapOnScreen (pipes g) ->
  pipesDrawable (set_gameState st g).
Proof. intros L F. split; [exact L|]. intros _. exact F. Qed.

Lemma restart_pipesDrawable :
  maintains pipesDrawable (resetGame >> modify (set_gameState PLAYING)).
Proof.
  intros g p [Hlen _]. rewrite restart_run.
  destruct (resetGame_gaps g p Hlen) as [L F].
  apply pipesDrawable_started; assumption.
Qed.

Lemma pipesDrawable_same (g g' : Game) :
  pipes g' = pipes g -> gameState g' = gameState g ->
  pipesDrawable g -> pipesDrawable g'.
Proof. unfold pipesDrawable. intros -> ->. auto. Qed.

Lemma loop_pipesDrawable : maintains pipesDrawable loop.
Proof.
  pose proof restart_pipesDrawable as Hrestart.
  intros g p H. rewrite loop_run. cbv zeta.
  match goal with |- context [if ?c then _ else _] => destruct c end; [exact H|].
  set (g1 := set_frameCounter _ _). set (p1 := platformAfter millis g p).
  assert (H1 : pipesDrawable g1) by exact H.
  assert (Hstate : gameState g1 = gameState g) by reflexivity.
  clearbody g1 p1. clear H.
  destruct (gameState g) eqn:Hg.
  - revert H1. generalize p1. generalize g1.
    change (maintains pipesDrawable loop_STARTSCREEN).
    unfold loop_STARTSCREEN, renderStartScreen, anyKeyPressed. maintain_with.
  - revert H1. generalize p1. generalize g1.
    change (maintains pipesDrawable loop_HIGHSCORE).
    unfold loop_HIGHSCORE, renderHighscoreScreen, anyKeyPressed. maintain_with.
    match goal with H : pipesDrawable ?g0 |- _ => destruct H as [Hlen _] end.
    split; [exact Hlen|]. intros Hne. now contradiction Hne.
  - destruct (gameOver g1) eqn:Hover.
    + rewrite (loop_PLAYING_over_run g1 p1 Hover). cbv zeta.
      match goal with |- context [if ?c && ?b then _ else _] => destruct (c && b) end.
      * rewrite <- restart_run. apply Hrestart.
        match goal with |- context [if ?c then _ else _] => destruct c end;
          [|exact H1].
        destruct H1 as [Hlen Hok]. split; [exact Hlen|].
        intros _. apply Hok. rewrite Hstate. discriminate.
      * match goal with |- context [if ?c then _ else _] => destruct c end;
          [|exact H1].
        destruct H1 as [Hlen Hok]. split; [exact Hlen|].
        intros _. apply Hok. rewrite Hstate. discriminate.
    + destruct (loop_PLAYING_alive_run g1 p1 Hover) as (p2 & p3 & ->).
      destruct H1 as [Hlen Hok]. specialize (Hok ltac:(rewrite Hstate; discriminate)).
      pose proof (updateBird_run g1 p1) as Hbird. cbv zeta in Hbird.
      set (gU := gameAfter updateBird g1 p1) in *.
      assert (HU : pipes gU = pipes g1 /\ gameState gU = gameState g1)
        by (rewrite Hbird; split; reflexivity).
      destruct HU as [HUp HUs].
      destruct (movePipes_gaps gU p2) as (LM & FM & SM);
        [now rewrite HUp | now rewrite HUp |].
      apply (pipesDrawable_same (gameAfter movePipes gU p2)).
      * apply (frame_pipes _ _ _ (checkCollision_frame _ p3)).
      * apply (frame_gameState _ _ _ (checkCollision_frame _ p3)).
      * split; [exact LM|]. intros _. exact FM.
Qed.

Lemma run_pipesDrawable (n : nat) : maintains pipesDrawable (run n).
Proof.
  induction n as [|n IH]; cbn [run].
  - apply maintains_ret.
  - apply maintains_bind; [apply loop_pipesDrawable|intros _; exact IH].
Qed.

Lemma initial_pipesDrawable : pipesDrawable initialGame.
Proof. split; [reflexivity|]. intros Hne. now contradiction Hne. Qed.

Lemma pipeRects_rows (q : Pipe) : gapOnScreen q -> Forall onScreenRows (pipeRects q).
Proof.
  unfold gapOnScreen, pipeRects, onScreenRows. intros Hh. unfold_consts.
  change (Z.quot (15 * 10) 10) with 15. change (Z.quot (30 * 10) 10) with 30.
  rewrite (Z.quot_div_nonneg (height q) 10) by lia.
  pose proof (Z.div_mod (height q) 10 ltac:(lia)) as Hdm.
  pose proof (Z.mod_pos_bound (height q) 10 ltac:(lia)) as Hm.
  repeat constructor; cbn [rect_y rect_h]; lia.
Qed.

Lemma drawPipes_rows (ps : list Pipe) :
  length ps = 3%nat -> Forall gapOnScreen ps ->
  length (drawPipesFrom MAX_PIPES 0 ps) = 12%nat /\
  Forall onScreenRows (drawPipesFrom MAX_PIPES 0 ps).
Proof.
  intros Hlen Hok. destruct (length3_inv _ Hlen) as (q0 & q1 & q2 & ->).
  apply Forall_cons in Hok as [H0 Hok]. apply Forall_cons in Hok as [H1 Hok].
  apply Forall_cons in Hok as [H2 _].
  unfold MAX_PIPES. cbn [drawPipesFrom lookup_total list_lookup_total].
  split; [reflexivity|].
  rewrite app_nil_r. repeat apply Forall_app_2; now apply pipeRects_rows.
Qed.

(** X14: after any number of calls of [loop] from power-on, once the game
    has left the start screen every pipe has its gap on the screen (it
    starts between 100 and 239, so that the gap and 10 pixels of pipe above
    and below it fit), and [drawPipes] fills exactly 12 rectangles, each
    with a positive height and between the top and the bottom of the
    screen. *)
Theorem pipes_always_drawable (n : nat) (p p' : Platform) :
  let g := gameAfter (run n) initialGame p in
  gameState g <> STARTSCREEN ->
  Forall gapOnScreen (pipes g) /\
  length (valueOf drawPipes g p') = 12%nat /\
  Forall onScreenRows (valueOf drawPipes g p').
Proof.
  intros g Hstate.
  destruct (run_pipesDrawable n initialGame p initial_pipesDrawable) as [Hlen Hok].
  fold g in Hlen, Hok. specialize (Hok Hstate).
  split; [exact Hok|]. now apply drawPipes_rows.
Qed.

Lemma pipes_always_drawable_witness :
  gameState (gameAfter (run 1) initialGame pressedAt6000) <> STARTSCREEN /\
  length (valueOf drawPipes (gameAfter (run 1) initialGame pressedAt6000) quietPlatform)
    = 12%nat.
Proof.
  assert (H : gameState (gameAfter (run 1) initialGame pressedAt6000) <> STARTSCREEN)
    by (vm_compute; discriminate).
  split; [exact H|].
  apply (pipes_always_drawable 1 pressedAt6000 quietPlatform H).
Defined.

(** *** The table holds the best five *)

Lemma insertDesc_perm (s : Z) (l : list Z) : insertDesc s l ≡ₚ s :: l.
Proof.
  induction l as [|h t IH]; cbn [insertDesc]; [reflexivity|].
  destruct (h <? s); [reflexivity|].
  rewrite IH. apply Permutation_swap.
Qed.

Lemma insertDesc_hd (s a : Z) (l : list Z) :
  a >= s -> HdRel Z.ge a l -> HdRel Z.ge a (insertDesc s l).
Proof.
  intros Has H. destruct l as [|h t]; cbn [insertDesc]; [now constructor|].
  apply HdRel_inv in H. destruct (h <? s); now constructor.
Qed.

Lemma insertDesc_sorted (s : Z) (l : list Z) :
  Sorted Z.ge l -> Sorted Z.ge (insertDesc s l).
Proof.
  induction l as [|h t IH]; intros Hs; cbn [insertDesc].
  - repeat constructor.
  - apply Sorted_inv in Hs as [Hs Hhd].
    destruct (Z.ltb_spec h s).
    + constructor; [now constructor|]. constructor. lia.
    + constructor; [now apply IH|]. apply insertDesc_hd; [lia|assumption].
Qed.

Lemma insertDesc_take (s : Z) (n : nat) (l : list Z) :
  take n (insertDesc s (take n l)) = take n (insertDesc s l).
Proof.
  revert n. induction l as [|h t IH]; intros [|n]; cbn [take insertDesc]; try reflexivity.
  destruct (h <? s); cbn [take].
  - f_equal. destruct n as [|n]; cbn [take]; [reflexivity|].
    rewrite take_take. do 2 f_equal. lia.
  - now rewrite IH.
Qed.

Lemma submit_insertDesc (s : Z) (hs : list Z) :
  length hs = 5%nat -> fst (submit s hs) = take 5 (insertDesc s hs).
Proof.
  intros H. destruct (length5_inv hs H) as (a & b & c & d & e & ->).
  rewrite submit_cases. cbn [insertDesc].
  destruct (a <? s); [reflexivity|]. destruct (b <? s); [reflexivity|].
  destruct (c <? s); [reflexivity|]. destruct (d <? s); [reflexivity|].
  destruct (e <? s); reflexivity.
Qed.

Lemma insertDesc_length (s : Z) (l : list Z) : length (insertDesc s l) = S (length l).
Proof. rewrite (Permutation_length (insertDesc_perm s l)). reflexivity. Qed.

Lemma saveAll_ranking (scores : list Z) (full : list Z) (g : Game) (p : Platform) :
  (5 <= length full)%nat ->
  highscores g = take 5 full ->
  highscores (gameAfter (saveAll scores) g p)
    = take 5 (foldl (fun l s => insertDesc s l) full scores).
Proof.
  revert full g p. induction scores as [|s rest IH]; intros full g p Hlen Hg.
  - exact Hg.
  - cbn [saveAll foldl]. rewrite gameAfter_bind. apply IH.
    + rewrite insertDesc_length. lia.
    + rewrite highscores_after_save, submit_insertDesc, Hg.
      * apply insertDesc_take.
      * rewrite Hg, length_take. lia.
Qed.

Lemma ranking_spec (scores : list Z) (full : list Z) :
  Sorted Z.ge full ->
  Sorted Z.ge (foldl (fun l s => insertDesc s l) full scores) /\
  foldl (fun l s => insertDesc s l) full scores ≡ₚ scores ++ full.
Proof.
  revert full. induction scores as [|s rest IH]; intros full Hs; cbn [foldl].
  - split; [exact Hs|reflexivity].
  - destruct (IH (insertDesc s full) (insertDesc_sorted s full Hs)) as [H1 H2].
    split; [exact H1|]. rewrite H2, insertDesc_perm. cbn [app].
    symmetry. apply Permutation_middle.
Qed.

(** X15: the table holds the best five.  After the runs of a session have
    submitted their scores, in any order and with any repetitions, the
    highscore table consists of the first five entries of the list of all
    submitted scores and the five zeros of power-on, sorted in
    non-increasing order. *)
Theorem highscores_are_top_five (scores : list Z) (p : Platform) :
  exists full,
    Sorted Z.ge full /\
    full ≡ₚ scores ++ [0; 0; 0; 0; 0] /\
    highscores (gameAfter (saveAll scores) initialGame p) = take 5 full.
Proof.
  exists (ranking scores). unfold ranking.
  destruct (ranking_spec scores [0; 0; 0; 0; 0]) as [Hs Hp].
  { rewrite sorted5. lia. }
  split; [exact Hs|]. split; [exact Hp|].
  apply saveAll_ranking; [cbn; lia|reflexivity].
Qed.


(** * The claims of the specification *)

(** C1: for a 5-entry highscore table, [saveHighscores s] inserts [s] exactly
    when [s] is strictly greater than some entry.  It then takes the first
    slot [i] whose value is below [s], keeps the slots above it, writes [s]
    at [i], moves the old slots [i..3] down to [i+1..4] (the lowest entry
    is lost) and stores [i] in [newHighscoreIndex].  Otherwise the table is
    unchanged and [newHighscoreIndex] is [-1]; this is the case whenever [s]
    is at most every entry, hence at most the minimum.  On
    [50,40,30,20,10], submitting 35 gives [50,40,35,30,20] with index 2.
    Sortedness of the table is not needed for any of this. *)
Theorem saveHighscores_contract (s : Z) (g : Game) (p : Platform) :
  length (highscores g) = 5%nat ->
  let hs := highscores g in
  let g' := gameAfter (saveHighscores s) g p in
  ((exists v, v ∈ hs /\ v < s) <-> newHighscoreIndex g' <> -1) /\
  (forall i v,
      hs !! i = Some v -> v < s ->
      (forall j w, (j < i)%nat -> hs !! j = Some w -> s <= w) ->
      highscores g' = take i hs ++ s :: take (4 - i) (drop i hs) /\
      newHighscoreIndex g' = Z.of_nat i) /\
  ((forall v, v ∈ hs -> s <= v) ->
      highscores g' = hs /\ newHighscoreIndex g' = -1) /\
  (hs = [50; 40; 30; 20; 10] -> s = 35 ->
      highscores g' = [50; 40; 35; 30; 20] /\ newHighscoreIndex g' = 2) /\
  length (highscores g') = 5%nat.
Proof.
  intros H hs g'. subst hs g'.
  rewrite highscores_after_save, index_after_save.
  split; [now apply submit_index_iff|].
  split.
  { intros i v Hi Hv Hfirst.
    now rewrite (submit_insert s _ i v H Hi Hv Hfirst). }
  split.
  { intros Hall. now rewrite (submit_none s _ H Hall). }
  split.
  { intros -> ->. split; reflexivity. }
  now apply submit_length.
Qed.

Lemma saveHighscores_contract_witness :
  length (highscores rankedGame) = 5%nat /\
  highscores (gameAfter (saveHighscores 35) rankedGame quietPlatform)
    = [50; 40; 35; 30; 20] /\
  newHighscoreIndex (gameAfter (saveHighscores 35) rankedGame quietPlatform) = 2.
Proof.
  split; [reflexivity|].
  apply (saveHighscores_contract 35 rankedGame quietPlatform eq_refl);
    reflexivity.
Defined.

(** C2 (as amended): with a forgiveness margin of 2 pixels, that is 20
    scaled units, the test of [checkCollision] for one pipe is positive
    exactly when the pipe's span (x, x + 150) meets the player's span
    (150 - 20, 150 + 20) and the player's vertical span [y - 20, y + 20] is
    not contained in the gap [height, height + 300].  For an overlapping
    pipe the positions height + 20 and height + 300 - 20 do not collide
    and the positions one scaled unit further out do.  [checkCollision]
    ends the run exactly when some pipe's test is positive or [birdY] is
    at least 640; the latter alone suffices, whatever the pipes are. *)
Theorem hitsPipe_contract (y : Z) (q : Pipe) :
  -30000 <= x q <= 30000 -> -30000 <= height q <= 30000 -> -30000 <= y <= 30000 ->
  (hitsPipe y q = true <-> collides (2 * SCALE_FACTOR) y q) /\
  (overlapsSpan (2 * SCALE_FACTOR) q ->
     hitsPipe (height q + 2 * SCALE_FACTOR) q = false /\
     hitsPipe (height q + PIPE_GAP - 2 * SCALE_FACTOR) q = false /\
     hitsPipe (height q + 2 * SCALE_FACTOR - 1) q = true /\
     hitsPipe (height q + PIPE_GAP - 2 * SCALE_FACTOR + 1) q = true) /\
  (forall g p,
     gameOver (gameAfter checkCollision g p) =
       gameOver g
       || (hitsPipe (birdY g) (pipes g !!! 0%nat)
           || hitsPipe (birdY g) (pipes g !!! 1%nat)
           || hitsPipe (birdY g) (pipes g !!! 2%nat)
           || belowScreen (birdY g))) /\
  (forall g p,
     SCREEN_HEIGHT * SCALE_FACTOR <= birdY g ->
     gameOver (gameAfter checkCollision g p) = true).
Proof.
  intros Hx Hh Hy. split; [now apply hitsPipe_iff|]. split; [|split].
  - intros Hov. unfold overlapsSpan in Hov.
    unfold hitsPipe, overlapsBird, outsideGap. unfold_consts. no_wrap.
    repeat split; bool_cases; cbn; first [reflexivity | lia].
  - intros g p. apply (frame_gameOver _ _ _ (checkCollision_frame g p)).
  - intros g p Hy'.
    rewrite (frame_gameOver _ _ _ (checkCollision_frame g p)).
    replace (belowScreen (birdY g)) with true.
    + now rewrite !orb_true_r.
    + unfold belowScreen. symmetry. apply Z.geb_le. lia.
Qed.

Lemma hitsPipe_contract_witness :
  (-30000 <= x (mkPipe 100 200) <= 30000) /\
  (-30000 <= height (mkPipe 100 200) <= 30000) /\
  (-30000 <= 220 <= 30000) /\
  (hitsPipe 220 (mkPipe 100 200) = true <-> collides (2 * SCALE_FACTOR) 220 (mkPipe 100 200)).
Proof.
  assert (Hx : -30000 <= x (mkPipe 100 200) <= 30000) by (cbn; lia).
  assert (Hh : -30000 <= height (mkPipe 100 200) <= 30000) by (cbn; lia).
  assert (Hy : -30000 <= 220 <= 30000) by lia.
  split; [exact Hx|]. split; [exact Hh|]. split; [exact Hy|].
  apply (hitsPipe_contract 220 (mkPipe 100 200) Hx Hh Hy).
Defined.

(** C2 as stated fails: with a margin of 2 scaled units the position
    gap start + 2 would lie inside the gap of an overlapping pipe, yet the
    code reports a collision there (202 - 20 < 200). *)
Lemma hitsPipe_margin_two_units :
  overlapsSpan 2 (mkPipe 100 200) /\
  insideGap 2 (200 + 2) (mkPipe 100 200) /\
  hitsPipe (200 + 2) (mkPipe 100 200) = true /\
  ~ (hitsPipe (200 + 2) (mkPipe 100 200) = true <-> collides 2 (200 + 2) (mkPipe 100 200)).
Proof.
  assert (Hin : insideGap 2 (200 + 2) (mkPipe 100 200))
    by (unfold insideGap; unfold_consts; cbn; lia).
  repeat split; try (unfold_consts; cbn; lia); try reflexivity.
  intros [Hhit _]. destruct (Hhit eq_refl) as [_ Hout]. exact (Hout Hin).
Qed.

(** C3: one physics step.  With [jump] the button reading of the frame,
    the new velocity is the old one, replaced by [JUMP_STRENGTH] when
    [jump] holds, plus [GRAVITY], clamped to [-50, 50].  The new position
    is the old one plus the new velocity, clamped below at 0 and not
    clamped at the bottom: it may reach or exceed the screen height 640.
    The position after the step is never negative, and no call of [loop]
    ever makes a non-negative position negative. *)
Theorem updateBird_contract (g : Game) (p : Platform) :
  let jump := button_src p (button_calls p) in
  let g' := gameAfter updateBird g p in
  velocity g' =
    Z.max (-50) (Z.min 50 ((if jump then JUMP_STRENGTH else velocity g) + GRAVITY)) /\
  -50 <= velocity g' <= 50 /\
  (int16 (birdY g + velocity g') -> birdY g' = Z.max 0 (birdY g + velocity g')) /\
  (int16 (birdY g + velocity g') ->
   SCREEN_HEIGHT * SCALE_FACTOR <= birdY g + velocity g' ->
   birdY g' = birdY g + velocity g') /\
  0 <= birdY g' /\
  (0 <= birdY g -> 0 <= birdY (gameAfter loop g p)).
Proof.
  intros jump g'. subst jump g'. rewrite updateBird_run. cbv zeta.
  cbn [velocity birdY set_velocity set_birdY].
  rewrite constrain_clamp.
  set (v' := Z.max (-50) (Z.min 50 _)).
  assert (Hv : -50 <= v' <= 50) by (subst v'; lia).
  split; [reflexivity|]. split; [exact Hv|].
  pose proof (wrap16_int16 (birdY g + v')) as Hw.
  split; [|split; [|split]].
  - intros Hr. rewrite (wrap16_id _ Hr). bool_cases; lia.
  - intros Hr Hlow. rewrite (wrap16_id _ Hr). unfold_consts. bool_cases; lia.
  - bool_cases; lia.
  - apply birdY_nonneg_loop.
Qed.

Lemma updateBird_contract_witness :
  int16 (birdY fallingGame + velocity (gameAfter updateBird fallingGame quietPlatform)) /\
  birdY (gameAfter updateBird fallingGame quietPlatform) = 650.
Proof.
  assert (H : int16 (birdY fallingGame
                     + velocity (gameAfter updateBird fallingGame quietPlatform)))
    by (vm_compute; split; discriminate).
  split; [exact H|].
  rewrite (proj1 (proj2 (proj2
    (updateBird_contract fallingGame quietPlatform))) H).
  reflexivity.
Defined.






(** C6 (as amended): whatever scores are submitted after power-on, the
    highscore table keeps exactly 5 entries, all non-negative, sorted in
    non-increasing order (equal neighbours are allowed). *)
Theorem highscores_stay_ranked (scores : list Z) (p : Platform) :
  let hs := highscores (gameAfter (saveAll scores) initialGame p) in
  length hs = 5%nat /\ Forall (fun v => 0 <= v) hs /\ Sorted Z.ge hs.
Proof. apply saveAll_rankedTable, initial_rankedTable. Qed.

(** C6 as stated fails: after power-on and one run ending with score 3 the
    table is [3,0,0,0,0], which is not strictly descending. *)
Lemma highscores_not_strictly_descending :
  highscores (gameAfter (saveAll [3]) initialGame quietPlatform) = [3; 0; 0; 0; 0] /\
  ~ Sorted Z.gt (highscores (gameAfter (saveAll [3]) initialGame quietPlatform)).
Proof.
  split; [reflexivity|].
  change (~ Sorted Z.gt [3; 0; 0; 0; 0]).
  rewrite sorted5. lia.
Qed.

(** C7: the code submits the score once per detected collision, not once
    per run, and a second submission of a qualifying score is never
    harmless: it leaves a different [newHighscoreIndex].  In [crashGame]
    the player overlaps the first pipe outside its gap and is below the
    screen: [checkCollision] calls [saveHighscores 3] twice and leaves the
    table [3,3,0,0,0] with index 1, where a single submission leaves
    [3,0,0,0,0] with index 0.  The state arises in play: it is what one
    frame of [loop] makes of [fallingGame]. *)
Theorem checkCollision_submits_twice :
  (forall s hs, rankedTable hs -> (exists v, v ∈ hs /\ v < s) ->
     snd (submit s (fst (submit s hs))) <> snd (submit s hs)) /\
  let g1 := gameAfter checkCollision crashGame lateClock in
  let g2 := gameAfter (saveHighscores (score crashGame)) crashGame lateClock in
  hitsPipe (birdY crashGame) (pipes crashGame !!! 0%nat) = true /\
  belowScreen (birdY crashGame) = true /\
  gameOver g1 = true /\ gameOverTime g1 = 1000 /\
  highscores g1 = [3; 3; 0; 0; 0] /\ newHighscoreIndex g1 = 1 /\
  highscores g2 = [3; 0; 0; 0; 0] /\ newHighscoreIndex g2 = 0 /\
  highscores (gameAfter loop fallingGame lateClock) = [3; 3; 0; 0; 0] /\
  newHighscoreIndex (gameAfter loop fallingGame lateClock) = 1 /\
  pipes (gameAfter loop fallingGame lateClock) = pipes crashGame /\
  birdY (gameAfter loop fallingGame lateClock) = birdY crashGame.
Proof.
  split; [intros s hs; apply submit_twice_differs|].
  vm_compute. repeat split; reflexivity.
Qed.

(** C8 (as amended): a call of [loop] in the [HIGHSCORE] state does nothing
    when less than [FRAME_TIME] ms have passed since the last frame.
    Otherwise, if the button is pressed the game is reset and the state
    becomes [PLAYING] at once (a new run, not the start screen), whether or
    not the timeout has elapsed: the run is not over, the score is 0, the
    player is back at 128 with velocity 0, the pipes stand where
    [resetGame] puts them with the next five draws of the random source,
    and the highscore table, its index and the game-over timestamp are
    kept.  If the button is not pressed and more than 8000 ms have passed
    since [gameOverTime], the state becomes [STARTSCREEN]; in every other
    case the state stays [HIGHSCORE]; without a press the frame changes
    nothing of the ended run (player, score, pipes, highscores). *)
Theorem highscore_exits (g : Game) (p : Platform) :
  gameState g = HIGHSCORE ->
  let now := wrapU32 (millis_src p (millis_calls p)) in
  let g1 := set_frameCounter (wrapU32 (frameCounter g + 1)) (set_lastFrameTime now g) in
  let p1 := platformAfter millis g p in
  let pressed := button_src p (button_calls p) in
  let t := valueOf timeoutClock g1 p1 in
  let g' := gameAfter loop g p in
  (wrapU32 (now - lastFrameTime g) < FRAME_TIME -> g' = g) /\
  (FRAME_TIME <= wrapU32 (now - lastFrameTime g) ->
     gameState g' =
       (if pressed then PLAYING
        else if wrapU32 (t - gameOverTime g) >? 8000 then STARTSCREEN
        else HIGHSCORE) /\
     (pressed = true -> length (pipes g) = 3%nat ->
        gameOver g' = false /\ score g' = 0 /\ birdY g' = 128 /\ velocity g' = 0 /\
        pipes g' =
          [ mkPipe 1280 (drawAt p 0 100 240);
            mkPipe (1930 + drawAt p 1 (-20) 20 * 10) (drawAt p 2 100 240);
            mkPipe (2580 + drawAt p 3 (-20) 20 * 10) (drawAt p 4 100 240) ] /\
        highscores g' = highscores g /\
        newHighscoreIndex g' = newHighscoreIndex g /\
        gameOverTime g' = gameOverTime g) /\
     (pressed = false ->
        gameOver g' = gameOver g /\ score g' = score g /\ birdY g' = birdY g /\
        velocity g' = velocity g /\ pipes g' = pipes g /\
        highscores g' = highscores g /\
        newHighscoreIndex g' = newHighscoreIndex g /\
        gameOverTime g' = gameOverTime g)).
Proof.
  intros Hstate now g1 p1 pressed t g'. subst g'.
  rewrite loop_run. cbv zeta. fold now. fold g1 p1. rewrite Hstate.
  split; intros Hdue.
  - apply Z.ltb_lt in Hdue. now rewrite Hdue.
  - apply Z.ltb_ge in Hdue. rewrite Hdue.
    split; [|split].
    + rewrite loop_HIGHSCORE_state. cbv zeta. fold t.
      change (button_src p1 (button_calls p1)) with pressed.
      change (gameOverTime g1) with (gameOverTime g).
      change (gameState g1) with (gameState g). rewrite Hstate. reflexivity.
    + intros Hb Hlen. rewrite loop_HIGHSCORE_run. cbv zeta.
      change (button_src p1 (button_calls p1)) with pressed. rewrite Hb.
      rewrite resetGame_run.
      * cbn [gameOver score birdY velocity pipes highscores newHighscoreIndex
             gameOverTime set_pipes set_gameOver set_score set_velocity set_birdY
             set_gameState].
        unfold drawAt.
        cbn [random_src random_calls millis_src millis_calls button_src button_calls
             platformAfter millis snd p1].
        repeat (match goal with |- context [if ?c then _ else _] => destruct c end);
          repeat split; reflexivity.
      * repeat (match goal with |- context [if ?c then _ else _] => destruct c end);
          exact Hlen.
    + intros Hb. rewrite loop_HIGHSCORE_run. cbv zeta.
      change (button_src p1 (button_calls p1)) with pressed. rewrite Hb.
      repeat (match goal with |- context [if ?c then _ else _] => destruct c end);
        repeat split; reflexivity.
Qed.

Lemma highscore_exits_witness :
  gameState highscoreGame = HIGHSCORE /\
  gameState (gameAfter loop highscoreGame idleAt9100) = STARTSCREEN /\
  score (gameAfter loop highscoreGame idleAt9100) = score highscoreGame.
Proof.
  split; [reflexivity|].
  assert (Hdue : FRAME_TIME <=
            wrapU32 (wrapU32 (millis_src idleAt9100 (millis_calls idleAt9100))
                     - lastFrameTime highscoreGame)) by (vm_compute; discriminate).
  pose proof (proj2 (highscore_exits highscoreGame idleAt9100 eq_refl) Hdue) as H.
  split.
  - rewrite (proj1 H). reflexivity.
  - apply (proj2 (proj2 H) eq_refl).
Defined.

(** C8 as stated fails: on the highscore screen a press of the button does
    not lead back to the start screen; it starts a new run. *)
Lemma highscore_press_starts_run :
  gameState highscoreGame = HIGHSCORE /\
  button_src pressedAt6000 (button_calls pressedAt6000) = true /\
  gameState (gameAfter loop highscoreGame pressedAt6000) = PLAYING /\
  gameState (gameAfter loop highscoreGame pressedAt6000) <> STARTSCREEN /\
  score (gameAfter loop highscoreGame pressedAt6000) = 0 /\
  gameOver (gameAfter loop highscoreGame pressedAt6000) = false.
Proof. vm_compute. repeat split; discriminate. Qed.

(** C9: on a 5-entry table with non-negative entries in non-increasing
    order, [saveHighscores] keeps the entries non-negative and
    non-increasing, for every submitted score.  Nothing stronger holds for
    the order: submitting 40 to the strictly descending [50,40,30,20,10]
    gives [50,40,40,30,20], with two equal neighbours. *)
Theorem saveHighscores_keeps_order (s : Z) (g : Game) (p : Platform) :
  length (highscores g) = 5%nat ->
  Forall (fun v => 0 <= v) (highscores g) ->
  Sorted Z.ge (highscores g) ->
  let g' := gameAfter (saveHighscores s) g p in
  (length (highscores g') = 5%nat /\
   Forall (fun v => 0 <= v) (highscores g') /\
   Sorted Z.ge (highscores g')) /\
  (Sorted Z.gt (highscores rankedGame) /\
   highscores (gameAfter (saveHighscores 40) rankedGame p) = [50; 40; 40; 30; 20] /\
   ~ Sorted Z.gt (highscores (gameAfter (saveHighscores 40) rankedGame p))).
Proof.
  intros Hlen Hpos Hsort g'. subst g'. split.
  - rewrite highscores_after_save. now apply submit_rankedTable.
  - split; [|split].
    + change (Sorted Z.gt [50; 40; 30; 20; 10]). rewrite sorted5. lia.
    + reflexivity.
    + change (~ Sorted Z.gt [50; 40; 40; 30; 20]). rewrite sorted5. lia.
Qed.

Lemma saveHighscores_keeps_order_witness :
  length (highscores initialGame) = 5%nat /\
  Sorted Z.ge (highscores (gameAfter (saveHighscores 7) initialGame quietPlatform)).
Proof.
  split; [reflexivity|].
  refine (proj2 (proj2 (proj1
    (saveHighscores_keeps_order 7 initialGame quietPlatform eq_refl _ _)))).
  - change (Forall (fun v => 0 <= v) [0; 0; 0; 0; 0]). rewrite forall5. lia.
  - change (Sorted Z.ge [0; 0; 0; 0; 0]). rewrite sorted5. lia.
Defined.


